(** * NewsCast AI: the audio playback timeline controller

    A shallow embedding of the [AudioPlayer] component
    (components/AudioPlayer.tsx): its refs and state, the Web Audio and
    animation-frame facilities it drives, its transport functions
    ([stopAudio], [updateProgress], [playAudio], [pauseAudio],
    [resetAudio]) and the [formatTime] helper.

    Clock readings, offsets and durations are JavaScript numbers in the
    source; here they are exact rationals ([Q]), so rounding of doubles is
    outside the model, and a division by a zero duration (NaN or Infinity in
    the source) is avoided by hypothesis wherever a quotient matters. *)

From Stdlib Require Import QArith Qround Qabs ZArith List String Ascii Bool.
From Stdlib Require Import Lia Lqa Decimal DecimalString DecimalPos DecimalZ.
Import ListNotations.

Open Scope Q_scope.

(** ** The platform objects *)

(** [AudioBuffer]: only its [duration] (seconds) is read by the component. *)
Record AudioBuffer : Type := mkBuffer { duration : Q }.

(** [AudioContext.state]. *)
Inductive AudioContextState : Type := suspended | running | closed.

(** The [AudioContext] held in [audioContextRef].  [strictStop] tells apart
    the two behaviours of [stop()] found in browsers: the prefixed
    [webkitAudioContext] that the source falls back to raises
    [InvalidStateError] when [stop()] reaches a node that has already stopped
    or finished, the standard one does not. *)
Record AudioContext : Type := mkContext {
  currentTime : Q;
  state : AudioContextState;
  strictStop : bool
}.

(** An [AudioBufferSourceNode]: [started] holds the context time and the
    buffer offset given to [start], once it has been called. *)
Record SourceNode : Type := mkNode {
  buffer : option AudioBuffer;
  connected : bool;
  started : option (Q * Q);
  stopped : bool
}.

Inductive DOMException : Type := InvalidStateError | RangeError | TypeError.

Inductive Completion (A : Type) : Type :=
| Normal (a : A)
| Throw (e : DOMException).
Arguments Normal {A} a.
Arguments Throw {A} e.

Definition fresh_node : SourceNode :=
  {| buffer := None; connected := false; started := None; stopped := false |}.

(** Position of the play head of a node at context time [t] (seconds into its
    buffer); [None] until [start] has been called. *)
Definition playhead (t : Q) (n : SourceNode) : option Q :=
  match started n with
  | Some (t0, off) => Some (off + (t - t0))
  | None => None
  end.

(** The node has run to the end of its buffer. *)
Definition ended (t : Q) (n : SourceNode) : bool :=
  match playhead t n, buffer n with
  | Some pos, Some b => Qle_bool (duration b) pos
  | _, _ => false
  end.

(** The node is rendering sound at context time [t]. *)
Definition audible (t : Q) (n : SourceNode) : bool :=
  match started n with
  | Some _ => connected n && negb (stopped n) && negb (ended t n)
  | None => false
  end.

(** [node.stop()]. *)
Definition node_stop (ctx : AudioContext) (n : SourceNode) : Completion SourceNode :=
  match started n with
  | None => Throw InvalidStateError
  | Some _ =>
      if strictStop ctx && (stopped n || ended (currentTime ctx) n)
      then Throw InvalidStateError
      else Normal {| buffer := buffer n; connected := connected n;
                     started := started n; stopped := true |}
  end.

(** [node.disconnect()]. *)
Definition node_disconnect (n : SourceNode) : Completion SourceNode :=
  Normal {| buffer := buffer n; connected := false;
            started := started n; stopped := stopped n |}.

(** [node.connect(ctx.destination)]. *)
Definition node_connect (n : SourceNode) : Completion SourceNode :=
  Normal {| buffer := buffer n; connected := true;
            started := started n; stopped := stopped n |}.

(** [node.buffer = b]. *)
Definition node_set_buffer (b : AudioBuffer) (n : SourceNode) : Completion SourceNode :=
  Normal {| buffer := Some b; connected := connected n;
            started := started n; stopped := stopped n |}.

(** [node.start(0, offset)]: starts at once, [offset] seconds into the
    buffer. *)
Definition node_start (ctx : AudioContext) (offset : Q) (n : SourceNode)
  : Completion SourceNode :=
  match started n with
  | Some _ => Throw InvalidStateError
  | None =>
      if Qle_bool 0 offset
      then Normal {| buffer := buffer n; connected := connected n;
                     started := Some (currentTime ctx, offset);
                     stopped := stopped n |}
      else Throw RangeError
  end.

(** ** The component *)

(** The component instance together with the host objects it reaches:
    the prop [audioBuffer], the two pieces of React state, the five refs,
    the source nodes created so far (a node is named by its index), the
    animation-frame callbacks that are scheduled (handle, and the
    [audioBuffer] their [updateProgress] closure captured), the next handle,
    and the [playAudio] calls waiting on [resume()]. *)
Record Player : Type := mkPlayer {
  audioBuffer : option AudioBuffer;
  isPlaying : bool;
  progress : Q;
  audioContextRef : option AudioContext;
  sourceNodeRef : option nat;
  startTimeRef : Q;
  pauseTimeRef : Q;
  animationFrameRef : nat;
  nodes : list SourceNode;
  frames : list (nat * option AudioBuffer);
  nextFrame : nat;
  resumes : list AudioBuffer
}.

Definition with_audioBuffer (v : option AudioBuffer) (p : Player) : Player :=
  mkPlayer v (isPlaying p) (progress p) (audioContextRef p) (sourceNodeRef p)
    (startTimeRef p) (pauseTimeRef p) (animationFrameRef p) (nodes p)
    (frames p) (nextFrame p) (resumes p).
Definition with_isPlaying (v : bool) (p : Player) : Player :=
  mkPlayer (audioBuffer p) v (progress p) (audioContextRef p) (sourceNodeRef p)
    (startTimeRef p) (pauseTimeRef p) (animationFrameRef p) (nodes p)
    (frames p) (nextFrame p) (resumes p).
Definition with_progress (v : Q) (p : Player) : Player :=
  mkPlayer (audioBuffer p) (isPlaying p) v (audioContextRef p) (sourceNodeRef p)
    (startTimeRef p) (pauseTimeRef p) (animationFrameRef p) (nodes p)
    (frames p) (nextFrame p) (resumes p).
Definition with_audioContextRef (v : option AudioContext) (p : Player) : Player :=
  mkPlayer (audioBuffer p) (isPlaying p) (progress p) v (sourceNodeRef p)
    (startTimeRef p) (pauseTimeRef p) (animationFrameRef p) (nodes p)
    (frames p) (nextFrame p) (resumes p).
Definition with_sourceNodeRef (v : option nat) (p : Player) : Player :=
  mkPlayer (audioBuffer p) (isPlaying p) (progress p) (audioContextRef p) v
    (startTimeRef p) (pauseTimeRef p) (animationFrameRef p) (nodes p)
    (frames p) (nextFrame p) (resumes p).
Definition with_startTimeRef (v : Q) (p : Player) : Player :=
  mkPlayer (audioBuffer p) (isPlaying p) (progress p) (audioContextRef p)
    (sourceNodeRef p) v (pauseTimeRef p) (animationFrameRef p) (nodes p)
    (frames p) (nextFrame p) (resumes p).
Definition with_pauseTimeRef (v : Q) (p : Player) : Player :=
  mkPlayer (audioBuffer p) (isPlaying p) (progress p) (audioContextRef p)
    (sourceNodeRef p) (startTimeRef p) v (animationFrameRef p) (nodes p)
    (frames p) (nextFrame p) (resumes p).
Definition with_animationFrameRef (v : nat) (p : Player) : Player :=
  mkPlayer (audioBuffer p) (isPlaying p) (progress p) (audioContextRef p)
    (sourceNodeRef p) (startTimeRef p) (pauseTimeRef p) v (nodes p)
    (frames p) (nextFrame p) (resumes p).
Definition with_nodes (v : list SourceNode) (p : Player) : Player :=
  mkPlayer (audioBuffer p) (isPlaying p) (progress p) (audioContextRef p)
    (sourceNodeRef p) (startTimeRef p) (pauseTimeRef p) (animationFrameRef p) v
    (frames p) (nextFrame p) (resumes p).
Definition with_frames (v : list (nat * option AudioBuffer)) (p : Player) : Player :=
  mkPlayer (audioBuffer p) (isPlaying p) (progress p) (audioContextRef p)
    (sourceNodeRef p) (startTimeRef p) (pauseTimeRef p) (animationFrameRef p)
    (nodes p) v (nextFrame p) (resumes p).
Definition with_nextFrame (v : nat) (p : Player) : Player :=
  mkPlayer (audioBuffer p) (isPlaying p) (progress p) (audioContextRef p)
    (sourceNodeRef p) (startTimeRef p) (pauseTimeRef p) (animationFrameRef p)
    (nodes p) (frames p) v (resumes p).
Definition with_resumes (v : list AudioBuffer) (p : Player) : Player :=
  mkPlayer (audioBuffer p) (isPlaying p) (progress p) (audioContextRef p)
    (sourceNodeRef p) (startTimeRef p) (pauseTimeRef p) (animationFrameRef p)
    (nodes p) (frames p) (nextFrame p) v.

(** ** Effects: state passing with exceptions *)

Definition Eff (A : Type) : Type := Player -> Completion A * Player.

Definition ret {A} (a : A) : Eff A := fun p => (Normal a, p).

Definition bind {A B} (m : Eff A) (k : A -> Eff B) : Eff B :=
  fun p =>
    match m p with
    | (Normal a, p') => k a p'
    | (Throw e, p') => (Throw e, p')
    end.

Definition throw {A} (e : DOMException) : Eff A := fun p => (Throw e, p).

(** [try { m } catch (e) { h }]: the effects of [m] up to the exception are
    kept. *)
Definition try_catch {A} (m : Eff A) (h : DOMException -> Eff A) : Eff A :=
  fun p =>
    match m p with
    | (Normal a, p') => (Normal a, p')
    | (Throw e, p') => h e p'
    end.

Definition gets {A} (f : Player -> A) : Eff A := fun p => (Normal (f p), p).
Definition modify (f : Player -> Player) : Eff unit := fun p => (Normal tt, f p).

Declare Scope eff_scope.
Delimit Scope eff_scope with eff.
Notation "x <- m ;; k" := (bind m (fun x => k))
  (at level 61, m at next level, right associativity) : eff_scope.
Notation "m ;; k" := (bind m (fun _ => k))
  (at level 61, right associativity) : eff_scope.
Open Scope eff_scope.

(** The state an effectful call leaves behind, and how it completed. *)
Definition exec {A} (m : Eff A) (p : Player) : Player := snd (m p).
Definition completes {A} (m : Eff A) (p : Player) : bool :=
  match fst (m p) with Normal _ => true | Throw _ => false end.

(** ** Host facilities *)

Fixpoint set_nth {A} (i : nat) (x : A) (l : list A) : list A :=
  match l, i with
  | [], _ => []
  | _ :: t, O => x :: t
  | h :: t, S j => h :: set_nth j x t
  end.

(** A method call on the node named [id]: the node is replaced by its
    new state, an exception leaves it as it was. *)
Definition on_node (id : nat) (op : SourceNode -> Completion SourceNode) : Eff unit :=
  fun p =>
    match nth_error (nodes p) id with
    | None => (Throw TypeError, p)
    | Some n =>
        match op n with
        | Normal n' => (Normal tt, with_nodes (set_nth id n' (nodes p)) p)
        | Throw e => (Throw e, p)
        end
    end.

(** [audioContextRef.current], a [TypeError] when it is null. *)
Definition the_context : Eff AudioContext :=
  fun p =>
    match audioContextRef p with
    | Some ctx => (Normal ctx, p)
    | None => (Throw TypeError, p)
    end.

(** [ctx.createBufferSource()]. *)
Definition createBufferSource : Eff nat :=
  fun p => (Normal (List.length (nodes p)), with_nodes (nodes p ++ [fresh_node]) p).

(** [requestAnimationFrame(cb)]: handles are positive and never reused. *)
Definition requestAnimationFrame (captured : option AudioBuffer) : Eff nat :=
  fun p =>
    (Normal (nextFrame p),
     with_nextFrame (S (nextFrame p))
       (with_frames (frames p ++ [(nextFrame p, captured)]) p)).

Definition drop_frame (h : nat) (l : list (nat * option AudioBuffer))
  : list (nat * option AudioBuffer) :=
  filter (fun f => negb (Nat.eqb (fst f) h)) l.

(** [cancelAnimationFrame(h)]: silently ignores a handle that is not
    scheduled. *)
Definition cancelAnimationFrame (h : nat) : Eff unit :=
  modify (fun p => with_frames (drop_frame h (frames p)) p).

(** [ctx.resume()], once its promise has resolved. *)
Definition resume_context : Eff unit :=
  modify (fun p =>
    match audioContextRef p with
    | Some ctx =>
        with_audioContextRef
          (Some {| currentTime := currentTime ctx; state := running;
                   strictStop := strictStop ctx |}) p
    | None => p
    end).

(** ** The transport functions *)

Definition setIsPlaying (b : bool) : Eff unit := modify (with_isPlaying b).
Definition setProgress (q : Q) : Eff unit := modify (with_progress q).

(** [stopAudio].  A node method reaches the context through the node
    ([node.context]), which is the one in [audioContextRef]. *)
Definition stopAudio : Eff unit :=
  r <- gets sourceNodeRef ;;
  match r with
  | Some id =>
      try_catch
        (ctx <- the_context ;;
         on_node id (node_stop ctx) ;;
         on_node id node_disconnect)
        (fun _ => ret tt) ;;
      modify (with_sourceNodeRef None)
  | None => ret tt
  end ;;
  h <- gets animationFrameRef ;;
  (if Nat.eqb h 0 then ret tt else cancelAnimationFrame h) ;;
  setIsPlaying false.

(** [updateProgress], as the closure of a render in which the prop
    [audioBuffer] was [captured]. *)
Definition updateProgress (captured : option AudioBuffer) : Eff unit :=
  c <- gets audioContextRef ;;
  r <- gets sourceNodeRef ;;
  match c, r, captured with
  | Some ctx, Some _, Some buf =>
      start <- gets startTimeRef ;;
      let elapsedTime := currentTime ctx - start in
      let currentProgress := (elapsedTime / duration buf) * 100 in
      if Qle_bool 100 currentProgress then
        setProgress 100 ;;
        stopAudio ;;
        modify (with_pauseTimeRef 0)
      else
        setProgress currentProgress ;;
        h <- requestAnimationFrame captured ;;
        modify (with_animationFrameRef h)
  | _, _, _ => ret tt
  end.

(** The part of [playAudio] that follows the [await]. *)
Definition playAudio_resumed (captured : AudioBuffer) : Eff unit :=
  r <- gets sourceNodeRef ;;
  match r with
  | Some id => ctx <- the_context ;; on_node id (node_stop ctx)
  | None => ret tt
  end ;;
  ctx <- the_context ;;
  source <- createBufferSource ;;
  on_node source (node_set_buffer captured) ;;
  on_node source node_connect ;;
  offset <- gets pauseTimeRef ;;
  modify (with_startTimeRef (currentTime ctx - offset)) ;;
  on_node source (node_start ctx offset) ;;
  modify (with_sourceNodeRef (Some source)) ;;
  setIsPlaying true ;;
  updateProgress (Some captured).

(** [playAudio], when nothing else runs while it awaits [resume()]. *)
Definition playAudio : Eff unit :=
  b <- gets audioBuffer ;;
  c <- gets audioContextRef ;;
  match b, c with
  | Some buf, Some ctx =>
      match state ctx with
      | suspended => resume_context
      | _ => ret tt
      end ;;
      playAudio_resumed buf
  | _, _ => ret tt
  end.

Definition pauseAudio : Eff unit :=
  c <- gets audioContextRef ;;
  match c with
  | None => ret tt
  | Some ctx =>
      start <- gets startTimeRef ;;
      let elapsed := currentTime ctx - start in
      modify (with_pauseTimeRef elapsed) ;;
      stopAudio ;;
      b <- gets audioBuffer ;;
      match b with
      | Some buf => setProgress ((elapsed / duration buf) * 100)
      | None => ret tt
      end
  end.

Definition resetAudio : Eff unit :=
  stopAudio ;;
  modify (with_pauseTimeRef 0) ;;
  setProgress 0.

(** The effect hook on [audioBuffer]: a render with a new prop, then
    [resetAudio]. *)
Definition onSampleReplaced (b : option AudioBuffer) : Eff unit :=
  modify (with_audioBuffer b) ;;
  resetAudio.

(** The transport button: [onClick={isPlaying ? pauseAudio : playAudio}]. *)
Definition clickTransport : Eff unit :=
  playing <- gets isPlaying ;;
  if playing then pauseAudio else playAudio.

(** ** Events of a session *)

(** [playAudio] up to its [await]: with a running context it goes straight
    on, with a suspended one the rest of the call is parked until
    [resume()] resolves. *)
Definition playAudio_begin : Eff unit :=
  b <- gets audioBuffer ;;
  c <- gets audioContextRef ;;
  match b, c with
  | Some buf, Some ctx =>
      match state ctx with
      | suspended => modify (fun p => with_resumes (resumes p ++ [buf]) p)
      | _ => playAudio_resumed buf
      end
  | _, _ => ret tt
  end.

(** The promise of [resume()] resolves: the context runs and the oldest
    parked call goes on. *)
Definition resumeResolved : Eff unit :=
  rs <- gets resumes ;;
  match rs with
  | [] => ret tt
  | buf :: rest =>
      modify (with_resumes rest) ;;
      resume_context ;;
      playAudio_resumed buf
  end.

(** The animation frame with handle [h] fires, if it is still scheduled. *)
Definition fireFrame (h : nat) : Eff unit :=
  fs <- gets frames ;;
  match find (fun f => Nat.eqb (fst f) h) fs with
  | Some (_, captured) =>
      modify (fun p => with_frames (drop_frame h (frames p)) p) ;;
      updateProgress captured
  | None => ret tt
  end.

(** The context clock moves on by [dt] seconds; a suspended context keeps
    its [currentTime]. *)
Definition advanceClock (dt : Q) : Eff unit :=
  modify (fun p =>
    match audioContextRef p with
    | Some ctx =>
        match state ctx with
        | running =>
            with_audioContextRef
              (Some {| currentTime := currentTime ctx + dt; state := running;
                       strictStop := strictStop ctx |}) p
        | _ => p
        end
    | None => p
    end).

Inductive Event : Type :=
| CallPlay                              (* playAudio is invoked *)
| ResumeResolved                        (* the awaited resume() resolves *)
| CallPause                             (* pauseAudio is invoked *)
| CallReset                             (* resetAudio is invoked *)
| CallStop                              (* the Edit button: stopAudio *)
| Frame (h : nat)                       (* an animation frame fires *)
| Elapse (num : N) (den : positive)     (* num/den seconds go by *)
| NewSample (b : option AudioBuffer).   (* the audioBuffer prop changes *)

Definition handler (e : Event) : Eff unit :=
  match e with
  | CallPlay => playAudio_begin
  | ResumeResolved => resumeResolved
  | CallPause => pauseAudio
  | CallReset => resetAudio
  | CallStop => stopAudio
  | Frame h => fireFrame h
  | Elapse num den => advanceClock (Z.of_N num # den)
  | NewSample b => onSampleReplaced b
  end.

(** An exception that leaves a handler is not caught anywhere: the state
    stays as it was when it was raised. *)
Definition step (e : Event) (p : Player) : Player := exec (handler e) p.

Definition run (es : list Event) (p : Player) : Player :=
  fold_left (fun q e => step e q) es p.

(** The component after mounting: the context exists (suspended or running,
    as the autoplay policy has it), nothing is loaded or scheduled. *)
Definition mounted (s : AudioContextState) (strict : bool) : Player :=
  {| audioBuffer := None; isPlaying := false; progress := 0;
     audioContextRef :=
       Some {| currentTime := 0; state := s; strictStop := strict |};
     sourceNodeRef := None; startTimeRef := 0; pauseTimeRef := 0;
     animationFrameRef := 0%nat; nodes := []; frames := [];
     nextFrame := 1%nat; resumes := [] |}.

(** The context clock, as the component reads it. *)
Definition clock (p : Player) : Q :=
  match audioContextRef p with
  | Some ctx => currentTime ctx
  | None => 0
  end.

(** The node the component holds, if any. *)
Definition currentNode (p : Player) : option SourceNode :=
  match sourceNodeRef p with
  | Some id => nth_error (nodes p) id
  | None => None
  end.

(** ** [formatTime] *)

(** [Math.trunc], and the [%] of two numbers (the result takes the sign of
    the dividend). *)
Definition js_trunc (q : Q) : Z :=
  if Qle_bool 0 q then Qfloor q else Qceiling q.

Definition js_rem (a b : Q) : Q := a - b * inject_Z (js_trunc (a / b)).

(** [toString] of an integral number. *)
Definition toString (z : Z) : string := NilZero.string_of_int (Z.to_int z).

(** [k] characters read from [pad] over and over. *)
Fixpoint filler (k : nat) (pad cur : string) : string :=
  match k with
  | O => EmptyString
  | S k' =>
      match cur with
      | String c r => String c (filler k' pad r)
      | EmptyString =>
          match pad with
          | String c r => String c (filler k' pad r)
          | EmptyString => EmptyString
          end
      end
  end.

(** [s.padStart(n, pad)]. *)
Definition padStart (n : nat) (pad s : string) : string :=
  String.append (filler (n - String.length s) pad pad) s.

Definition formatTime (seconds : Q) : string :=
  let mins := Qfloor (seconds / 60) in
  let secs := Qfloor (js_rem seconds 60) in
  String.append (padStart 2 "0" (toString mins))
    (String.append ":" (padStart 2 "0" (toString secs))).

(** The two time labels of the player: [formatTime(pauseTimeRef.current)]
    and the total duration. *)
Definition timeLabel (p : Player) : string := formatTime (pauseTimeRef p).

Definition durationLabel (p : Player) : string :=
  match audioBuffer p with
  | Some buf => formatTime (duration buf)
  | None => "00:00"%string
  end.

(** ** A ten-second sample for the worked sessions *)

Definition ten : AudioBuffer := {| duration := 10 |}.

(** ** Notions used in the statements *)

(** Unfolds the effect combinators and the host calls. *)
Ltac eff :=
  unfold exec, completes, setIsPlaying, setProgress, cancelAnimationFrame,
    requestAnimationFrame, createBufferSource, resume_context, the_context,
    on_node, bind, gets, modify, ret, throw, try_catch;
  cbn.

(** What the [try] block of [stopAudio] makes of a node: stopped and
    disconnected, or left as it was if [stop()] raised. *)
Definition silenced (ctx : AudioContext) (n : SourceNode) : SourceNode :=
  match node_stop ctx n with
  | Normal m => {| buffer := buffer m; connected := false;
                   started := started m; stopped := stopped m |}
  | Throw _ => n
  end.

(** The node store once the [try] block of [stopAudio] is over. *)
Definition released_nodes (p : Player) : list SourceNode :=
  match sourceNodeRef p, audioContextRef p with
  | Some id, Some ctx =>
      match nth_error (nodes p) id with
      | Some n => set_nth id (silenced ctx n) (nodes p)
      | None => nodes p
      end
  | _, _ => nodes p
  end.

(** The frame queue once [stopAudio] has cancelled the handle in
    [animationFrameRef]. *)
Definition released_frames (p : Player) : list (nat * option AudioBuffer) :=
  if Nat.eqb (animationFrameRef p) 0 then frames p
  else drop_frame (animationFrameRef p) (frames p).


(** The invariant behind it: nodes exist only once the context does, and a
    node that sounds now or later is the one [sourceNodeRef] holds. *)
Definition engine_inv (p : Player) : Prop :=
  (audioContextRef p = None -> nodes p = []) /\
  (forall i n t, clock p <= t -> nth_error (nodes p) i = Some n ->
                 audible t n = true -> sourceNodeRef p = Some i).

(** After the teardown no node sounds at all. *)
Definition all_silent (p : Player) : Prop :=
  forall i n t, clock p <= t -> nth_error (nodes p) i = Some n ->
                audible t n = false.

(** Lines 97-100: stop any existing playback. *)
Definition stop_existing : Eff unit :=
  r <- gets sourceNodeRef ;;
  match r with
  | Some id => ctx <- the_context ;; on_node id (node_stop ctx)
  | None => ret tt
  end.

(** Lines 102-114: create, wire and start the new node, then report. *)
Definition start_new (captured : AudioBuffer) : Eff unit :=
  ctx <- the_context ;;
  source <- createBufferSource ;;
  on_node source (node_set_buffer captured) ;;
  on_node source node_connect ;;
  offset <- gets pauseTimeRef ;;
  modify (with_startTimeRef (currentTime ctx - offset)) ;;
  on_node source (node_start ctx offset) ;;
  modify (with_sourceNodeRef (Some source)) ;;
  setIsPlaying true ;;
  updateProgress (Some captured).

(** The node [start_new] builds for [b]. *)
Definition new_node (b : AudioBuffer) (s : option (Q * Q)) : SourceNode :=
  {| buffer := Some b; connected := true; started := s; stopped := false |}.

(** The state in which [start_new] hands over to [updateProgress]. *)
Definition started_state (b : AudioBuffer) (ctx : AudioContext) (p : Player) : Player :=
  with_isPlaying true
    (with_sourceNodeRef (Some (List.length (nodes p)))
       (with_nodes
          (nodes p ++ [new_node b (Some (currentTime ctx, pauseTimeRef p))])
          (with_startTimeRef (currentTime ctx - pauseTimeRef p) p))).

(** The percentage a tick computes. *)
Definition percent (ctx : AudioContext) (buf : AudioBuffer) (p : Player) : Q :=
  (currentTime ctx - startTimeRef p) / duration buf * 100.

(** The progress the presentation layer draws, as a fraction of the bar. *)
Definition progressFraction (p : Player) : Q := progress p / 100.

(** What a completed teardown of [p] looks like in the state [q] it leaves:
    the node is released, the session is inactive, the frame the loop had
    scheduled is gone, and whatever frame still fires changes neither the
    progress nor the offset. *)
Definition torn_down (p q : Player) : Prop :=
  sourceNodeRef q = None /\
  isPlaying q = false /\
  (animationFrameRef p <> 0%nat ->
   forall c, ~ In (animationFrameRef p, c) (frames q)) /\
  (forall h, let r := exec (fireFrame h) q in
             progress r = progress q /\ pauseTimeRef r = pauseTimeRef q /\
             sourceNodeRef r = None /\ isPlaying r = false /\
             nextFrame r = nextFrame q).

(** The node [sourceNodeRef] holds is one whose [stop()] raises. *)
Definition stop_raises (p : Player) : Prop :=
  exists id ctx n e,
    sourceNodeRef p = Some id /\ audioContextRef p = Some ctx /\
    nth_error (nodes p) id = Some n /\ node_stop ctx n = Throw e.

(** A session whose node has run past the end of its buffer, on a browser
    whose [stop()] then raises. *)
Definition finished_strict : Player :=
  run [NewSample (Some ten); CallPlay; Elapse 12 1] (mounted running true).

(** The state after the [await] of [playAudio]: a suspended context has been
    resumed. *)
Definition woken (p : Player) : Player :=
  match audioContextRef p with
  | Some ctx =>
      match state ctx with
      | suspended =>
          with_audioContextRef
            (Some {| currentTime := currentTime ctx; state := running;
                     strictStop := strictStop ctx |}) p
      | _ => p
      end
  | None => p
  end.

(** [q] is the state right after a [playAudio] that was called in [p] and
    started a node for [b] at offset [o]. *)
Definition plays_from (b : AudioBuffer) (o : Q) (p q : Player) : Prop :=
  currentNode q = Some (new_node b (Some (clock p, o))) /\
  startTimeRef q = clock p - o /\
  clock q = clock p /\
  List.length (nodes q) = S (List.length (nodes p)).

(** The session at rest at the start of the sample. *)
Definition initial_session (q : Player) : Prop :=
  isPlaying q = false /\ sourceNodeRef q = None /\
  pauseTimeRef q = 0 /\ progress q = 0 /\ progressFraction q == 0.

(** A [playAudio] called in [q] starts the sample [q] holds at offset 0. *)
Definition restarts_from_zero (q : Player) : Prop :=
  forall b ctx,
    audioBuffer q = Some b -> audioContextRef q = Some ctx ->
    completes playAudio q = true /\
    plays_from b 0 q (exec playAudio q) /\
    isPlaying (exec playAudio q) = true.

(** A ten-second sample played for twelve seconds without a frame in
    between. *)
Definition overdue : Player :=
  run [NewSample (Some ten); CallPlay; Elapse 12 1] (mounted running false).

(** One frame period: [dt] seconds go by, then the frame that the loop has
    scheduled fires. *)
Definition framePeriod (dt : Q) : Eff unit :=
  advanceClock dt ;;
  h <- gets animationFrameRef ;;
  fireFrame h.

(** A stretch of playback, frame period after frame period. *)
Fixpoint playFor (dts : list Q) : Eff unit :=
  match dts with
  | [] => ret tt
  | dt :: rest => framePeriod dt ;; playFor rest
  end.

(** The time a list of frame periods takes. *)
Definition total (dts : list Q) : Q := fold_right Qplus 0 dts.

(** Handles in the queue are older than the next one to be given out. *)
Definition frames_fresh (p : Player) : Prop :=
  forall f, In f (frames p) -> (fst f < nextFrame p)%nat.

(** The loop is running for [b], with clock origin [T0]. *)
Definition looping (b : AudioBuffer) (T0 : Q) (p : Player) : Prop :=
  audioBuffer p = Some b /\
  (exists ctx, audioContextRef p = Some ctx /\ state ctx = running) /\
  sourceNodeRef p <> None /\
  startTimeRef p = T0 /\
  find (fun f => Nat.eqb (fst f) (animationFrameRef p)) (frames p)
    = Some (animationFrameRef p, Some b) /\
  frames_fresh p.

(** Seconds into the buffer at which the held node is playing. *)
Definition position (p : Player) : option Q :=
  match currentNode p with
  | Some n => playhead (clock p) n
  | None => None
  end.

(** The held node is playing at [v] seconds. *)
Definition position_is (p : Player) (v : Q) : Prop :=
  match position p with
  | Some x => x == v
  | None => False
  end.

(** The ten-second sample, three seconds into its first run. *)
Definition active_at_3 : Player :=
  run [NewSample (Some ten); CallPlay; Elapse 3 1; Frame 1]
    (mounted running false).

(** The same sample paused at three seconds, two seconds later. *)
Definition paused_at_3_later : Player :=
  run [NewSample (Some ten); CallPlay; Elapse 3 1; Frame 1; CallPause;
       Elapse 2 1] (mounted running false).

(** The timing side of a session reached from the mounted component: the
    clock origin is not in the future, the stored offset is not negative,
    an active session holds a node, and every sample in sight has a
    positive duration. *)
Definition timing_inv (p : Player) : Prop :=
  (exists ctx, audioContextRef p = Some ctx) /\
  startTimeRef p <= clock p /\
  0 <= pauseTimeRef p /\
  (isPlaying p = true -> sourceNodeRef p <> None) /\
  (forall h c, In (h, c) (frames p) -> exists b, c = Some b /\ 0 < duration b) /\
  (forall b, audioBuffer p = Some b -> 0 < duration b) /\
  (forall b, In b (resumes p) -> 0 < duration b).

(** The samples a session is given have positive durations. *)
Definition sample_ok (e : Event) : Prop :=
  match e with
  | NewSample (Some b) => 0 < duration b
  | _ => True
  end.

(** Every sample the session is given satisfies [P]. *)
Definition sample_is (P : AudioBuffer -> Prop) (e : Event) : Prop :=
  match e with
  | NewSample (Some b) => P b
  | _ => True
  end.

(** The queue of scheduled frames: handles are given out once, and a
    frame, a parked call and the component carry only samples that
    satisfy [P]. *)
Definition queue_inv (P : AudioBuffer -> Prop) (p : Player) : Prop :=
  frames_fresh p /\
  NoDup (map fst (frames p)) /\
  (forall h c, In (h, c) (frames p) -> exists b, c = Some b /\ P b) /\
  (forall b, In b (resumes p) -> P b) /\
  (forall b, audioBuffer p = Some b -> P b).

(** Three seconds into the first run of the ten-second sample, before the
    frame of that instant has fired. *)
Definition due_at_3 : Player :=
  run [NewSample (Some ten); CallPlay; Elapse 3 1] (mounted running false).

(** The two numbers [formatTime] prints. *)
Definition mins_of (s : Q) : Z := Qfloor (s / 60).
Definition secs_of (s : Q) : Z := Qfloor (js_rem s 60).

(** The number a printed field denotes. *)
Definition field_value (str : string) : option Z :=
  option_map Z.of_int (NilZero.int_of_string str).

(** The remainder of the floored division: [s mod m] on the reals. *)
Definition floor_mod (s m : Q) : Q := s - m * inject_Z (Qfloor (s / m)).

(** [formatTime] written after its description: floor of [s/60], a colon,
    floor of [s mod 60], each padded to two characters. *)
Definition mmss (s : Q) : string :=
  String.append (padStart 2 "0" (toString (Qfloor (s / 60))))
    (String.append ":" (padStart 2 "0" (toString (Qfloor (floor_mod s 60))))).

(** ** Sessions reached from the mounted component *)

(** What every such session keeps, on a browser whose [stop()] is [strict]
    or not: the context exists, the clock origin is not in the future, the
    stored offset is not negative, [isPlaying] tells whether a node is held,
    and a held node has been started, is connected and has not been
    stopped. *)
Definition session_inv (strict : bool) (p : Player) : Prop :=
  (exists ctx, audioContextRef p = Some ctx /\ strictStop ctx = strict) /\
  startTimeRef p <= clock p /\
  0 <= pauseTimeRef p /\
  (isPlaying p = true <-> sourceNodeRef p <> None) /\
  (forall id, sourceNodeRef p = Some id ->
     exists n, nth_error (nodes p) id = Some n /\ started n <> None /\
               stopped n = false /\ connected n = true).

(** The bar is never negative and is short of full while the session is
    active. *)
Definition progress_inv (p : Player) : Prop :=
  0 <= progress p /\ (isPlaying p = true -> progress p < 100).

(** No colon among the characters of a string. *)
Fixpoint no_colon (s : string) : bool :=
  match s with
  | EmptyString => true
  | String c r => negb (Ascii.eqb c ":") && no_colon r
  end.

(** ** The rest of [AudioPlayer]: edit mode *)

(** A string in a condition: the empty string is falsy. *)
Definition truthy (s : string) : bool := negb (String.eqb s "").

(** [s || fallback]. *)
Definition orElse (s fallback : string) : string :=
  if truthy s then s else fallback.

(** The component with its state [isEditing] and the props [script],
    [allowScriptEdit] and [isGeneratingAudio]; the prop [audioBuffer] and
    the playback state are the player's. *)
Record Panel : Type := mkPanel {
  player : Player;
  isEditing : bool;
  script : string;
  allowScriptEdit : bool;
  isGeneratingAudio : bool
}.

Definition with_player (v : Player) (w : Panel) : Panel :=
  mkPanel v (isEditing w) (script w) (allowScriptEdit w) (isGeneratingAudio w).
Definition with_isEditing (v : bool) (w : Panel) : Panel :=
  mkPanel (player w) v (script w) (allowScriptEdit w) (isGeneratingAudio w).
Definition with_script (v : string) (w : Panel) : Panel :=
  mkPanel (player w) (isEditing w) v (allowScriptEdit w) (isGeneratingAudio w).

(** The effect on [audioBuffer, script, allowScriptEdit]. *)
Definition editModeEffect (w : Panel) : Panel :=
  match audioBuffer (player w) with
  | None =>
      if truthy (script w) && allowScriptEdit w
      then with_isEditing true w
      else w
  | Some _ => with_isEditing false w
  end.

(** A render in which the parent passes another [script]: the effect runs
    because one of its dependencies changed. *)
Definition scriptProp (new : string) (w : Panel) : Panel :=
  if String.eqb new (script w) then w
  else editModeEffect (with_script new w).

(** A render in which the parent passes another [audioBuffer]: both effects
    run, in the order of their declaration. *)
Definition sampleProp (b : option AudioBuffer) (w : Panel) : Panel :=
  let w1 := editModeEffect (with_player (with_audioBuffer b (player w)) w) in
  with_player (exec resetAudio (player w1)) w1.

(** The Edit button, and when it is rendered. *)
Definition onEdit (w : Panel) : Panel :=
  with_player (exec stopAudio (player w)) (with_isEditing true w).

Definition editShown (w : Panel) : bool :=
  match audioBuffer (player w) with
  | Some _ => negb (isEditing w)
  | None => false
  end.

(** [disabled] of the reset and the transport button. *)
Definition controlsDisabled (w : Panel) : bool :=
  match audioBuffer (player w) with
  | Some _ => isEditing w
  | None => true
  end.

(** ** Strings, as the handlers use them *)

(** White space and line terminators in the Latin-1 range, which [trim]
    strips. *)
Definition isWhite (c : ascii) : bool :=
  let n := nat_of_ascii c in
  (Nat.eqb n 9 || Nat.eqb n 10 || Nat.eqb n 11 || Nat.eqb n 12 ||
   Nat.eqb n 13 || Nat.eqb n 32 || Nat.eqb n 160)%bool.

Fixpoint trimStart (s : string) : string :=
  match s with
  | String c r => if isWhite c then trimStart r else s
  | EmptyString => EmptyString
  end.

Fixpoint trimEnd (s : string) : string :=
  match s with
  | String c r =>
      match trimEnd r with
      | EmptyString => if isWhite c then EmptyString else String c EmptyString
      | r' => String c r'
      end
  | EmptyString => EmptyString
  end.

(** [s.trim()]. *)
Definition trim (s : string) : string := trimEnd (trimStart s).

(** [s.endsWith(suffix)]. *)
Definition endsWith (s suffix : string) : bool :=
  let n := String.length s in
  let m := String.length suffix in
  (Nat.leb m n && String.eqb (String.substring (n - m) m s) suffix)%bool.

(** [list.includes(x)] on strings. *)
Definition includes (l : list string) (x : string) : bool :=
  existsb (String.eqb x) l.

(** [s.split(sep)] for a separator of one character. *)
Fixpoint split (sep : ascii) (s : string) : list string :=
  match s with
  | EmptyString => [EmptyString]
  | String c r =>
      if Ascii.eqb c sep then EmptyString :: split sep r
      else match split sep r with
           | h :: t => String c h :: t
           | [] => [String c EmptyString]
           end
  end.

(** ** Promises *)

(** How an awaited call ends: with a value, or with a thrown error, of which
    the handlers read [message] only. *)
Inductive Outcome (A : Type) : Type :=
| Resolved (a : A)
| Rejected (message : option string).
Arguments Resolved {A} a.
Arguments Rejected {A} message.

(** [err.message || ""]. *)
Definition messageOf (m : option string) : string :=
  match m with
  | Some s => s
  | None => EmptyString
  end.

(** types.ts *)
Inductive VoiceName : Type := Puck | Charon | Kore | Fenrir | Zephyr.

(** ** services/gemini.ts *)

Module Gemini.

(** The part of a [generateContent] response that the service reads. *)
Record InlineData : Type := { data : option string }.
Record Part : Type := { inlineData : option InlineData }.
Record Content : Type := { parts : option (list Part) }.
Record Candidate : Type := { content : option Content }.
Record Response : Type := {
  text : option string;
  candidates : option (list Candidate)
}.

(** [response.text || fallback], inside [try { ... } catch (error)
    { console.error(...); throw error; }]. *)
Definition textOr (fallback : string) (api : Outcome Response) : Outcome string :=
  match api with
  | Resolved r =>
      Resolved (match text r with
                | Some t => orElse t fallback
                | None => fallback
                end)
  | Rejected m => Rejected m
  end.

Definition generateNewsScript (api : Outcome Response) : Outcome string :=
  textOr "I'm sorry, I couldn't generate a summary." api.

Definition generateExampleNews (api : Outcome Response) : Outcome string :=
  textOr "Could not generate example content." api.

Definition extractTextFromFile (api : Outcome Response) : Outcome string :=
  textOr "" api.

(** [x?.[0]]. *)
Definition first {A} (l : option (list A)) : option A :=
  match l with
  | Some (x :: _) => Some x
  | _ => None
  end.

(** [response.candidates?.[0]?.content?.parts?.[0]?.inlineData?.data]. *)
Definition base64Audio (r : Response) : option string :=
  match first (candidates r) with
  | Some c =>
      match content c with
      | Some ct =>
          match first (parts ct) with
          | Some pt =>
              match inlineData pt with
              | Some d => data d
              | None => None
              end
          | None => None
          end
      | None => None
      end
  | None => None
  end.

(** [generateSpeechFromScript]; [decode] stands for [decodeBase64]
    followed by [decodeAudioData] of utils/audioUtils. *)
Definition generateSpeechFromScript (decode : string -> Outcome AudioBuffer)
           (api : Outcome Response) : Outcome AudioBuffer :=
  match api with
  | Resolved r =>
      match base64Audio r with
      | Some d =>
          if truthy d then decode d
          else Rejected (Some "No audio content returned from Gemini TTS."%string)
      | None => Rejected (Some "No audio content returned from Gemini TTS."%string)
      end
  | Rejected m => Rejected m
  end.

End Gemini.

(** ** App.tsx *)

Module App.

(** What the model service answers to each request, and the decoder of
    utils/audioUtils. *)
Record Services : Type := {
  summarize : string -> Outcome Gemini.Response;
  example : string -> Outcome Gemini.Response;
  extract : string -> option string -> Outcome Gemini.Response;
  speak : string -> VoiceName -> Outcome Gemini.Response;
  decode : string -> Outcome AudioBuffer
}.

(** The state of [App], and the temporary audio contexts that
    [synthesizeAudio] has created and closed. *)
Record State : Type := mkState {
  inputText : string;
  generatedScript : string;
  audioBuffer : option AudioBuffer;
  isProcessing : bool;
  isSynthesizing : bool;
  selectedVoice : VoiceName;
  error : option string;
  precisionMode : bool;
  contextsCreated : nat;
  contextsClosed : nat
}.

Definition initial : State :=
  mkState "" "" None false false Kore None false 0 0.

Definition setInputText (v : string) (s : State) : State :=
  mkState v (generatedScript s) (audioBuffer s) (isProcessing s)
    (isSynthesizing s) (selectedVoice s) (error s) (precisionMode s)
    (contextsCreated s) (contextsClosed s).
Definition setGeneratedScript (v : string) (s : State) : State :=
  mkState (inputText s) v (audioBuffer s) (isProcessing s)
    (isSynthesizing s) (selectedVoice s) (error s) (precisionMode s)
    (contextsCreated s) (contextsClosed s).
Definition setAudioBuffer (v : option AudioBuffer) (s : State) : State :=
  mkState (inputText s) (generatedScript s) v (isProcessing s)
    (isSynthesizing s) (selectedVoice s) (error s) (precisionMode s)
    (contextsCreated s) (contextsClosed s).
Definition setIsProcessing (v : bool) (s : State) : State :=
  mkState (inputText s) (generatedScript s) (audioBuffer s) v
    (isSynthesizing s) (selectedVoice s) (error s) (precisionMode s)
    (contextsCreated s) (contextsClosed s).
Definition setIsSynthesizing (v : bool) (s : State) : State :=
  mkState (inputText s) (generatedScript s) (audioBuffer s) (isProcessing s)
    v (selectedVoice s) (error s) (precisionMode s)
    (contextsCreated s) (contextsClosed s).
Definition setSelectedVoice (v : VoiceName) (s : State) : State :=
  mkState (inputText s) (generatedScript s) (audioBuffer s) (isProcessing s)
    (isSynthesizing s) v (error s) (precisionMode s)
    (contextsCreated s) (contextsClosed s).
Definition setError (v : option string) (s : State) : State :=
  mkState (inputText s) (generatedScript s) (audioBuffer s) (isProcessing s)
    (isSynthesizing s) (selectedVoice s) v (precisionMode s)
    (contextsCreated s) (contextsClosed s).
Definition setPrecisionMode (v : bool) (s : State) : State :=
  mkState (inputText s) (generatedScript s) (audioBuffer s) (isProcessing s)
    (isSynthesizing s) (selectedVoice s) (error s) v
    (contextsCreated s) (contextsClosed s).
Definition newContext (s : State) : State :=
  mkState (inputText s) (generatedScript s) (audioBuffer s) (isProcessing s)
    (isSynthesizing s) (selectedVoice s) (error s) (precisionMode s)
    (S (contextsCreated s)) (contextsClosed s).
Definition closeContext (s : State) : State :=
  mkState (inputText s) (generatedScript s) (audioBuffer s) (isProcessing s)
    (isSynthesizing s) (selectedVoice s) (error s) (precisionMode s)
    (contextsCreated s) (S (contextsClosed s)).

(** [synthesizeAudio], run to its end with nothing in between; creating
    and closing the temporary context are taken to succeed.  Its [catch]
    takes every error, so the promise it returns always resolves. *)
Definition synthesizeAudio (sv : Services) (scriptToRead : string)
           (voice : VoiceName) (s : State) : State :=
  let s := setError None (setIsSynthesizing true s) in
  let s := newContext s in
  let s :=
    match Gemini.generateSpeechFromScript (decode sv)
            (speak sv scriptToRead voice) with
    | Resolved buffer => closeContext (setAudioBuffer (Some buffer) s)
    | Rejected m =>
        setError (Some (String.append "Failed to generate audio. " (messageOf m))) s
    end in
  setIsSynthesizing false s.

(** [handleGenerate]; what it reads ([inputText], [precisionMode],
    [selectedVoice]) is the state it was called in. *)
Definition handleGenerate (sv : Services) (s0 : State) : State :=
  if truthy (trim (inputText s0)) then
    let s := setGeneratedScript ""
               (setAudioBuffer None (setError None (setIsProcessing true s0))) in
    let s :=
      match Gemini.generateNewsScript (summarize sv (inputText s0)) with
      | Resolved script =>
          let s := setGeneratedScript script s in
          if precisionMode s0 then s
          else synthesizeAudio sv script (selectedVoice s0) s
      | Rejected m =>
          setError
            (Some (String.append
                     "Failed to generate broadcast. Please try again. "
                     (messageOf m))) s
      end in
    setIsProcessing false s
  else s0.

Definition handleConfirmScript (sv : Services) (s : State) : State :=
  if truthy (generatedScript s)
  then synthesizeAudio sv (generatedScript s) (selectedVoice s) s
  else s.

Definition handleGenerateExample (sv : Services) (topic : string) (s : State)
  : State :=
  let s := setError None (setIsProcessing true s) in
  let s :=
    match Gemini.generateExampleNews (example sv topic) with
    | Resolved exampleText => setInputText exampleText s
    | Rejected m =>
        setError
          (Some (String.append "Failed to generate example content. "
                   (messageOf m))) s
    end in
  setIsProcessing false s.

(** [handleParseFile]; [base64Data] is [None] where the caller passes
    [undefined]. *)
Definition handleParseFile (sv : Services) (mimeType : string)
           (base64Data : option string) (s : State) : State :=
  let s := setError None (setIsProcessing true s) in
  let s :=
    match Gemini.extractTextFromFile (extract sv mimeType base64Data) with
    | Resolved t => setInputText t s
    | Rejected m =>
        setError
          (Some (String.append "Failed to extract text from file. "
                   (messageOf m))) s
    end in
  setIsProcessing false s.

Definition handleVoiceChange (sv : Services) (newVoice : VoiceName) (s0 : State)
  : State :=
  let s := setSelectedVoice newVoice s0 in
  match audioBuffer s0 with
  | Some _ =>
      if truthy (generatedScript s0) && negb (isSynthesizing s0)
      then synthesizeAudio sv (generatedScript s0) newVoice s
      else s
  | None => s
  end.

(** What the user can do to [App]. *)
Inductive Action : Type :=
| TypeInput (t : string)
| Generate
| ConfirmScript
| EditScript (t : string)
| ChangeVoice (v : VoiceName)
| TogglePrecision
| GenerateExample (topic : string)
| ParseFile (mimeType : string) (base64Data : option string).

Definition act (sv : Services) (a : Action) (s : State) : State :=
  match a with
  | TypeInput t => setInputText t s
  | Generate => handleGenerate sv s
  | ConfirmScript => handleConfirmScript sv s
  | EditScript t => setGeneratedScript t s
  | ChangeVoice v => handleVoiceChange sv v s
  | TogglePrecision => setPrecisionMode (negb (precisionMode s)) s
  | GenerateExample topic => handleGenerateExample sv topic s
  | ParseFile m d => handleParseFile sv m d s
  end.

Definition session (sv : Services) (l : list Action) (s : State) : State :=
  fold_left (fun q a => act sv a q) l s.

(** The props [App] passes to [AudioPlayer], which it renders only while
    [generatedScript || isProcessing]. *)
Definition playerShown (s : State) : bool :=
  (truthy (generatedScript s) || isProcessing s)%bool.

Definition scriptPassed (s : State) : string :=
  orElse (generatedScript s) "Generating script...".

End App.

(** ** components/NewsInput.tsx *)

Module NewsInput.

(** The state of the component, and the value of the hidden file input. *)
Record State : Type := mkState {
  showExampleInput : bool;
  exampleTopic : string;
  isGeneratingExample : bool;
  isUploading : bool;
  fileInputValue : string
}.

Definition setShowExampleInput (v : bool) (n : State) : State :=
  mkState v (exampleTopic n) (isGeneratingExample n) (isUploading n)
    (fileInputValue n).
Definition setExampleTopic (v : string) (n : State) : State :=
  mkState (showExampleInput n) v (isGeneratingExample n) (isUploading n)
    (fileInputValue n).
Definition setIsGeneratingExample (v : bool) (n : State) : State :=
  mkState (showExampleInput n) (exampleTopic n) v (isUploading n)
    (fileInputValue n).
Definition setIsUploading (v : bool) (n : State) : State :=
  mkState (showExampleInput n) (exampleTopic n) (isGeneratingExample n) v
    (fileInputValue n).
Definition setFileInputValue (v : string) (n : State) : State :=
  mkState (showExampleInput n) (exampleTopic n) (isGeneratingExample n)
    (isUploading n) v.

(** The props that are callbacks act on the parent; an async one also says
    how its promise ends. *)
Record Props : Type := {
  onChange : string -> App.State -> App.State;
  onGenerateExample : string -> App.State -> App.State * Outcome unit;
  onParseFile : string -> option string -> App.State -> App.State * Outcome unit
}.

(** The props as [App] passes them: its handlers catch their own errors, so
    their promises resolve. *)
Definition propsOf (sv : App.Services) : Props :=
  {| onChange := App.setInputText;
     onGenerateExample :=
       fun topic a => (App.handleGenerateExample sv topic a, Resolved tt);
     onParseFile :=
       fun m d a => (App.handleParseFile sv m d a, Resolved tt) |}.

Definition handleExampleSubmit (pr : Props) (ui : App.State * State)
  : App.State * State :=
  let (a, n) := ui in
  if truthy (trim (exampleTopic n)) then
    let n := setIsGeneratingExample true n in
    let (a, r) := onGenerateExample pr (exampleTopic n) a in
    let n :=
      match r with
      | Resolved _ => setExampleTopic "" (setShowExampleInput false n)
      | Rejected _ => n
      end in
    (a, setIsGeneratingExample false n)
  else ui.

Inductive Key : Type := Enter | Escape | OtherKey.

Definition handleKeyDown (pr : Props) (k : Key) (ui : App.State * State)
  : App.State * State :=
  match k with
  | Enter => handleExampleSubmit pr ui
  | Escape => (fst ui, setShowExampleInput false (snd ui))
  | OtherKey => ui
  end.

(** A chosen file: its [type] and [name], how [file.text()] ends, and the
    data URL a [FileReader] produces for it, if the read succeeds. *)
Record File : Type := {
  type : string;
  name : string;
  contents : Outcome string;
  dataURL : option string
}.

Definition textTypes : list string :=
  ["text/plain"; "text/markdown"; "application/json"; "text/csv"; "text/html"]%string.

Definition readAsText (f : File) : bool :=
  (includes textTypes (type f) || endsWith (name f) ".txt"
   || endsWith (name f) ".md")%bool.

(** [handleFileChange], until its promise settles: the state, and the file
    a reader has been started on, if any.  The [return] of the binary branch sits
    inside the [try], so the [finally] block runs after it as well. *)
Definition handleFileChange (pr : Props) (file : option File)
           (ui : App.State * State) : App.State * State * option File :=
  let (a, n) := ui in
  match file with
  | None => (a, n, None)
  | Some f =>
      let n := setIsUploading true n in
      let '(a, reading) :=
        if readAsText f then
          match contents f with
          | Resolved t => (onChange pr t a, None)
          | Rejected _ => (a, None)
          end
        else (a, Some f) in
      let n := setFileInputValue "" n in
      (a, setIsUploading false n, reading)
  end.

(** [reader.onload] for the file [f]. *)
Definition readerLoaded (pr : Props) (f : File) (ui : App.State * State)
  : App.State * State :=
  let (a, n) := ui in
  match dataURL f with
  | Some url =>
      let base64String := nth_error (split "," url) 1 in
      let (a, r) := onParseFile pr (orElse (type f) "application/pdf")
                      base64String a in
      match r with
      | Resolved _ => (a, setIsUploading false n)
      | Rejected _ => (a, n)
      end
  | None => ui
  end.

End NewsInput.

(** A service that answers every request with the same text and carries no
    audio. *)
Definition textOnly (t : string) : App.Services :=
  let r := Resolved {| Gemini.text := Some t; Gemini.candidates := None |} in
  {| App.summarize := fun _ => r;
     App.example := fun _ => r;
     App.extract := fun _ _ => r;
     App.speak := fun _ _ => r;
     App.decode := fun _ => Rejected None |}.


(** The error shown is one of [synthesizeAudio]. *)
Definition isAudioFailure (e : option string) : bool :=
  match e with
  | Some t => String.prefix "Failed to generate audio. " t
  | None => false
  end.

(** The temporary audio contexts that are still open. *)
Definition openContexts (s : App.State) : nat :=
  (App.contextsCreated s - App.contextsClosed s)%nat.

(** What holds of [App] between two actions of a session. *)
Definition app_inv (s : App.State) : Prop :=
  App.isProcessing s = false /\ App.isSynthesizing s = false /\
  (App.contextsClosed s <= App.contextsCreated s)%nat /\
  (App.audioBuffer s <> None -> (1 <= App.contextsClosed s)%nat) /\
  (isAudioFailure (App.error s) = true ->
   (App.contextsClosed s < App.contextsCreated s)%nat).

(** How an action changes the contexts, the sample and the error: it makes
    no synthesis, or one that succeeds, or one that fails. *)
Definition app_step (s s' : App.State) : Prop :=
  (App.contextsCreated s' = App.contextsCreated s /\
   App.contextsClosed s' = App.contextsClosed s /\
   (App.audioBuffer s' = App.audioBuffer s \/ App.audioBuffer s' = None) /\
   (App.error s' = App.error s \/ isAudioFailure (App.error s') = false)) \/
  (App.contextsCreated s' = S (App.contextsCreated s) /\
   App.contextsClosed s' = S (App.contextsClosed s) /\
   App.audioBuffer s' <> None /\ App.error s' = None) \/
  (App.contextsCreated s' = S (App.contextsCreated s) /\
   App.contextsClosed s' = App.contextsClosed s /\
   (App.audioBuffer s' = App.audioBuffer s \/ App.audioBuffer s' = None) /\
   isAudioFailure (App.error s') = true).

(** The character [c] does not occur in [s]. *)
Fixpoint lacks (c : ascii) (s : string) : bool :=
  match s with
  | EmptyString => true
  | String d r => (negb (Ascii.eqb d c) && lacks c r)%bool
  end.

(** A service whose speech answer carries the data [dat] in the first part
    of its first candidate, decoded to [b]. *)
Definition withAudio (dat : string) (b : AudioBuffer) : App.Services :=
  let r := Resolved {| Gemini.text := None;
                       Gemini.candidates :=
                         Some [ {| Gemini.content :=
                                     Some {| Gemini.parts :=
                                               Some [ {| Gemini.inlineData :=
                                                           Some {| Gemini.data := Some dat |} |} ] |} |} ] |} in
  {| App.summarize := fun _ => r;
     App.example := fun _ => r;
     App.extract := fun _ _ => r;
     App.speak := fun _ _ => r;
     App.decode := fun _ => Resolved b |}.

(** * Properties *)

(** ** Basic facts about the host model *)

Lemma nth_error_set_nth {A} (l : list A) (i j : nat) (x : A) :
  nth_error (set_nth i x l) j =
  if Nat.eqb i j
  then match nth_error l i with Some _ => Some x | None => None end
  else nth_error l j.
Proof.
  revert i j; induction l as [|a l IH]; intros [|i] [|j]; cbn; try reflexivity.
  - destruct (Nat.eqb i j); reflexivity.
  - apply IH.
Qed.

Lemma length_set_nth {A} (l : list A) (i : nat) (x : A) :
  List.length (set_nth i x l) = List.length l.
Proof.
  revert i; induction l as [|a l IH]; intros [|i]; cbn; auto.
Qed.

Lemma ended_mono (t t' : Q) (n : SourceNode) :
  t <= t' -> ended t n = true -> ended t' n = true.
Proof.
  unfold ended, playhead; intros Ht.
  destruct (started n) as [[t0 off]|]; [|discriminate].
  destruct (buffer n) as [b|]; [|discriminate].
  rewrite !Qle_bool_iff; intros H; lra.
Qed.

(** What [stop()] leaves of a node, whether it returns or raises: the node
    is silent from the current clock reading on. *)
Lemma node_stop_silent (ctx : AudioContext) (n : SourceNode) (t : Q) :
  currentTime ctx <= t ->
  audible t (match node_stop ctx n with Normal n' => n' | Throw _ => n end) = false.
Proof.
  intros Ht; unfold node_stop.
  destruct (started n) as [s|] eqn:Es.
  - destruct (strictStop ctx && (stopped n || ended (currentTime ctx) n)) eqn:E.
    + apply andb_true_iff in E as [_ E]; apply orb_true_iff in E as [E|E];
        unfold audible; rewrite Es.
      * rewrite E; destruct (connected n); reflexivity.
      * rewrite (ended_mono _ _ _ Ht E); cbn; apply andb_false_r.
    + unfold audible; cbn; destruct (connected n); reflexivity.
  - unfold audible; rewrite Es; reflexivity.
Qed.

(** ** [stopAudio] in closed form *)

Lemma set_nth_set_nth {A} (l : list A) (i : nat) (x y : A) :
  set_nth i y (set_nth i x l) = set_nth i y l.
Proof.
  revert i; induction l as [|a l IH]; intros [|i]; cbn; try reflexivity.
  now rewrite IH.
Qed.

Lemma set_nth_same {A} (l : list A) (i : nat) (x : A) :
  nth_error l i = Some x -> set_nth i x l = l.
Proof.
  revert i; induction l as [|a l IH]; intros [|i]; cbn; try congruence.
  intros H; now rewrite IH.
Qed.

Lemma stopAudio_eq (p : Player) :
  stopAudio p =
  (Normal tt,
   with_isPlaying false
     (with_frames (released_frames p)
        (with_sourceNodeRef None (with_nodes (released_nodes p) p)))).
Proof.
  unfold stopAudio, released_nodes, released_frames, silenced; eff.
  destruct p as [ab ip pr [ctx|] [id|] st pt af ns fs nf rs]; cbn.
  - destruct (nth_error ns id) as [n|] eqn:En; cbn.
    + destruct (node_stop ctx n) as [m|e] eqn:Em; cbn.
      * rewrite nth_error_set_nth, Nat.eqb_refl, En; cbn.
        rewrite set_nth_set_nth.
        destruct (Nat.eqb af 0); reflexivity.
      * rewrite (set_nth_same _ _ _ En). destruct (Nat.eqb af 0); reflexivity.
    + destruct (Nat.eqb af 0); reflexivity.
  - destruct (Nat.eqb af 0); reflexivity.
  - destruct (Nat.eqb af 0); reflexivity.
  - destruct (Nat.eqb af 0); reflexivity.
Qed.

Arguments stopAudio : simpl never.
Arguments updateProgress : simpl never.
Arguments playAudio_resumed : simpl never.

Lemma nth_error_released_nodes (p : Player) (i : nat) :
  nth_error (released_nodes p) i =
  match sourceNodeRef p, audioContextRef p, nth_error (nodes p) i with
  | Some id, Some ctx, Some n =>
      if Nat.eqb id i then Some (silenced ctx n) else Some n
  | _, _, r => r
  end.
Proof.
  unfold released_nodes.
  destruct (sourceNodeRef p) as [id|]; [|now destruct (nth_error (nodes p) i)].
  destruct (audioContextRef p) as [ctx|]; [|now destruct (nth_error (nodes p) i)].
  destruct (nth_error (nodes p) id) as [n|] eqn:En.
  - rewrite nth_error_set_nth, En.
    destruct (Nat.eqb id i) eqn:E.
    + apply Nat.eqb_eq in E; subst i; now rewrite En.
    + now destruct (nth_error (nodes p) i).
  - destruct (Nat.eqb id i) eqn:E.
    + apply Nat.eqb_eq in E; subst i; now rewrite En.
    + now destruct (nth_error (nodes p) i).
Qed.

Lemma silenced_silent (ctx : AudioContext) (n : SourceNode) (t : Q) :
  currentTime ctx <= t -> audible t (silenced ctx n) = false.
Proof.
  intros Ht. pose proof (node_stop_silent ctx n t Ht) as H.
  unfold silenced. destruct (node_stop ctx n) as [m|e]; [|exact H].
  unfold audible; cbn. destruct (started m); reflexivity.
Qed.

(** ** One engine at a time *)


Lemma stopAudio_silent (p : Player) :
  engine_inv p -> all_silent (exec stopAudio p).
Proof.
  intros [Hc Ha] i n t Ht Hn.
  unfold exec in *; rewrite stopAudio_eq in *; cbn in *.
  unfold clock in Ht; cbn in Ht.
  rewrite nth_error_released_nodes in Hn.
  destruct (audible t n) eqn:A; [exfalso|reflexivity].
  destruct (audioContextRef p) as [ctx|] eqn:Ec.
  - destruct (sourceNodeRef p) as [id|] eqn:Er.
    + destruct (nth_error (nodes p) i) as [m|] eqn:Em; [|discriminate].
      destruct (Nat.eqb id i) eqn:E.
      * injection Hn as <-. rewrite silenced_silent in A by exact Ht. discriminate.
      * injection Hn as <-.
        assert (Some id = Some i) as X.
        { apply (Ha i m t); auto. unfold clock; now rewrite Ec. }
        injection X as ->. rewrite Nat.eqb_refl in E; discriminate.
    + assert (@None nat = Some i) as X.
      { apply (Ha i n t); auto. unfold clock; now rewrite Ec. }
      discriminate.
  - rewrite (Hc eq_refl) in Hn.
    destruct (sourceNodeRef p); destruct i; discriminate.
Qed.

Lemma all_silent_inv (p : Player) :
  (audioContextRef p = None -> nodes p = []) -> all_silent p -> engine_inv p.
Proof.
  intros Hc Hs; split; [exact Hc|].
  intros i n t Ht Hn A. rewrite (Hs i n t Ht Hn) in A; discriminate.
Qed.

(** [engine_inv] reads three fields only. *)
Lemma engine_inv_ext (p q : Player) :
  audioContextRef q = audioContextRef p -> nodes q = nodes p ->
  sourceNodeRef q = sourceNodeRef p -> engine_inv p -> engine_inv q.
Proof.
  unfold engine_inv, clock; intros -> -> ->; auto.
Qed.

Lemma stopAudio_context (p : Player) :
  audioContextRef (exec stopAudio p) = audioContextRef p.
Proof. unfold exec; now rewrite stopAudio_eq. Qed.

Lemma released_nodes_nil (p : Player) : nodes p = [] -> released_nodes p = [].
Proof.
  unfold released_nodes; intros E; rewrite E.
  destruct (sourceNodeRef p) as [[|id]|]; destruct (audioContextRef p); reflexivity.
Qed.

Lemma stopAudio_inv (p : Player) : engine_inv p -> engine_inv (exec stopAudio p).
Proof.
  intros H. apply all_silent_inv; [|now apply stopAudio_silent].
  unfold exec; rewrite stopAudio_eq; cbn. intros E.
  apply released_nodes_nil, (proj1 H E).
Qed.

(** ** [playAudio] in two halves *)

Lemma playAudio_resumed_split (b : AudioBuffer) :
  playAudio_resumed b = (stop_existing ;; start_new b).
Proof. reflexivity. Qed.

Lemma nth_error_app_last {A} (l : list A) (x : A) :
  nth_error (l ++ [x]) (List.length l) = Some x.
Proof. induction l; cbn; auto. Qed.

Lemma set_nth_app_last {A} (l : list A) (x y : A) :
  set_nth (List.length l) y (l ++ [x]) = l ++ [y].
Proof. induction l; cbn; congruence. Qed.

Lemma start_new_eq (b : AudioBuffer) (p : Player) :
  start_new b p =
  match audioContextRef p with
  | None => (Throw TypeError, p)
  | Some ctx =>
      if Qle_bool 0 (pauseTimeRef p)
      then updateProgress (Some b) (started_state b ctx p)
      else (Throw RangeError,
            with_nodes (nodes p ++ [new_node b None])
              (with_startTimeRef (currentTime ctx - pauseTimeRef p) p))
  end.
Proof.
  unfold start_new, started_state, new_node.
  unfold the_context, createBufferSource, on_node, bind, gets, modify, ret,
    setIsPlaying; cbn -[updateProgress].
  destruct (audioContextRef p) as [ctx|] eqn:Ec; [|reflexivity].
  cbn -[updateProgress]. rewrite nth_error_app_last; cbn -[updateProgress].
  rewrite set_nth_app_last, nth_error_app_last; cbn -[updateProgress].
  rewrite set_nth_app_last, nth_error_app_last; cbn -[updateProgress].
  unfold node_start; cbn -[updateProgress].
  destruct (Qle_bool 0 (pauseTimeRef p)); cbn -[updateProgress].
  - rewrite set_nth_app_last. reflexivity.
  - reflexivity.
Qed.

Lemma stop_existing_eq (p : Player) :
  stop_existing p =
  match sourceNodeRef p with
  | None => (Normal tt, p)
  | Some id =>
      match audioContextRef p, nth_error (nodes p) id with
      | Some ctx, Some n =>
          match node_stop ctx n with
          | Normal m => (Normal tt, with_nodes (set_nth id m (nodes p)) p)
          | Throw e => (Throw e, p)
          end
      | _, _ => (Throw TypeError, p)
      end
  end.
Proof.
  unfold stop_existing, the_context, on_node, bind, gets, ret; cbn.
  destruct (sourceNodeRef p) as [id|]; [|reflexivity].
  destruct (audioContextRef p) as [ctx|]; [|reflexivity].
  destruct (nth_error (nodes p) id) as [n|]; [|reflexivity].
  destruct (node_stop ctx n); reflexivity.
Qed.

Lemma node_stop_normal (ctx : AudioContext) (n m : SourceNode) :
  node_stop ctx n = Normal m ->
  stopped m = true /\ buffer m = buffer n /\ started m = started n /\
  connected m = connected n.
Proof.
  unfold node_stop. destruct (started n) eqn:Es; [|discriminate].
  destruct (strictStop ctx && _); [discriminate|].
  intros H; injection H as <-; cbn; auto.
Qed.

Lemma stopped_silent (t : Q) (n : SourceNode) :
  stopped n = true -> audible t n = false.
Proof.
  unfold audible; intros ->. destruct (started n); [|reflexivity].
  destruct (connected n); reflexivity.
Qed.

(** Where [stop_existing] returns, every node is silent. *)
Lemma stop_existing_silent (p : Player) :
  engine_inv p ->
  match stop_existing p with
  | (Normal _, q) =>
      all_silent q /\ audioContextRef q = audioContextRef p /\
      sourceNodeRef q = sourceNodeRef p /\ pauseTimeRef q = pauseTimeRef p /\
      List.length (nodes q) = List.length (nodes p)
  | (Throw _, q) => q = p
  end.
Proof.
  intros [Hc Ha]. rewrite stop_existing_eq.
  destruct (sourceNodeRef p) as [id|] eqn:Er.
  - destruct (audioContextRef p) as [ctx|] eqn:Ec; [|reflexivity].
    destruct (nth_error (nodes p) id) as [n|] eqn:En; [|reflexivity].
    destruct (node_stop ctx n) as [m|e] eqn:Em; [|reflexivity].
    cbn. repeat split; auto using length_set_nth.
    intros i k t Ht Hk. unfold clock in Ht; cbn in Ht, Hk.
    rewrite nth_error_set_nth, En in Hk.
    destruct (Nat.eqb id i) eqn:E.
    + injection Hk as <-. apply stopped_silent.
      now apply node_stop_normal in Em.
    + destruct (audible t k) eqn:A; [exfalso|reflexivity].
      assert (Some id = Some i) as X.
      { apply (Ha i k t); auto. }
      injection X as ->.
      rewrite Nat.eqb_refl in E; discriminate.
  - repeat split; auto.
    intros i k t Ht Hk. destruct (audible t k) eqn:A; [exfalso|reflexivity].
    pose proof (Ha i k t Ht Hk A) as X. discriminate.
Qed.

Lemma updateProgress_inv (c : option AudioBuffer) (p : Player) :
  engine_inv p -> engine_inv (exec (updateProgress c) p).
Proof.
  intros H. unfold exec, updateProgress, bind, gets; cbn.
  destruct (audioContextRef p) as [ctx|] eqn:Ec; [|exact H].
  destruct (sourceNodeRef p) as [id|] eqn:Er; [|exact H].
  destruct c as [buf|]; [|exact H].
  destruct (Qle_bool 100 _).
  - unfold setProgress, modify, ret, bind; cbn.
    rewrite stopAudio_eq; cbn.
    apply (engine_inv_ext (exec stopAudio p)).
    + now rewrite stopAudio_context.
    + unfold exec; now rewrite stopAudio_eq.
    + unfold exec; now rewrite stopAudio_eq.
    + now apply stopAudio_inv.
  - unfold setProgress, requestAnimationFrame, modify, ret, bind; cbn.
    apply (engine_inv_ext p); auto.
Qed.

Lemma start_new_inv (b : AudioBuffer) (p : Player) :
  (audioContextRef p = None -> nodes p = []) -> all_silent p ->
  engine_inv (exec (start_new b) p).
Proof.
  intros Hc Hs. unfold exec. rewrite start_new_eq.
  destruct (audioContextRef p) as [ctx|] eqn:Ec.
  - destruct (Qle_bool 0 (pauseTimeRef p)).
    + apply updateProgress_inv. split.
      * cbn; rewrite Ec; discriminate.
      * intros i n t Ht Hn A. cbn in *.
        unfold clock in Ht; cbn in Ht; rewrite Ec in Ht.
        destruct (Nat.lt_ge_cases i (List.length (nodes p))) as [L|L].
        -- rewrite nth_error_app1 in Hn by exact L.
           rewrite (Hs i n t) in A; auto. discriminate.
           unfold clock; now rewrite Ec.
        -- rewrite nth_error_app2 in Hn by exact L.
           destruct (i - List.length (nodes p))%nat as [|k] eqn:Ek.
           ++ f_equal; lia.
           ++ destruct k; discriminate.
    + apply all_silent_inv; cbn.
      * rewrite Ec; discriminate.
      * intros i n t Ht Hn. cbn in *.
        unfold clock in Ht; cbn in Ht; rewrite Ec in Ht.
        destruct (Nat.lt_ge_cases i (List.length (nodes p))) as [L|L].
        -- rewrite nth_error_app1 in Hn by exact L.
           apply (Hs i n t); auto. unfold clock; now rewrite Ec.
        -- rewrite nth_error_app2 in Hn by exact L.
           destruct (i - List.length (nodes p))%nat as [|k] eqn:Ek.
           ++ injection Hn as <-. reflexivity.
           ++ destruct k; discriminate.
  - cbn. apply all_silent_inv; auto.
Qed.

Lemma playAudio_resumed_inv (b : AudioBuffer) (p : Player) :
  engine_inv p -> engine_inv (exec (playAudio_resumed b) p).
Proof.
  intros H. rewrite playAudio_resumed_split. unfold exec, bind.
  pose proof (stop_existing_silent p H) as S.
  destruct (stop_existing p) as [[[]|e] q].
  - destruct S as (Hs & Ec & Er & _ & Hl).
    apply start_new_inv; auto.
    intros E. rewrite Ec in E. apply (proj1 H) in E.
    rewrite E in Hl. now destruct (nodes q).
  - cbn. now subst q.
Qed.

(** The invariant survives a clock that has moved on and any change to the
    fields that it does not read. *)
Lemma engine_inv_later (p q : Player) :
  (audioContextRef q = None -> audioContextRef p = None) ->
  clock p <= clock q -> nodes q = nodes p ->
  sourceNodeRef q = sourceNodeRef p -> engine_inv p -> engine_inv q.
Proof.
  intros Hc Ht En Er [H1 H2]; split.
  - intros E. rewrite En. auto.
  - intros i n t Hq. rewrite En, Er. apply H2.
    apply Qle_trans with (clock q); assumption.
Qed.

Lemma resume_context_inv (p : Player) :
  engine_inv p -> engine_inv (exec resume_context p).
Proof.
  unfold exec, resume_context, modify; cbn.
  destruct (audioContextRef p) as [ctx|] eqn:Ec; [|auto].
  apply engine_inv_later; unfold clock; cbn; rewrite ?Ec;
    try reflexivity; try discriminate. apply Qle_refl.
Qed.

Lemma elapse_nonneg (num : N) (den : positive) : 0 <= Z.of_N num # den.
Proof. unfold Qle; cbn. lia. Qed.

Lemma advanceClock_inv (dt : Q) (p : Player) :
  0 <= dt -> engine_inv p -> engine_inv (exec (advanceClock dt) p).
Proof.
  intros Hd. unfold exec, advanceClock, modify; cbn.
  destruct (audioContextRef p) as [ctx|] eqn:Ec; [|auto].
  destruct (state ctx); auto.
  apply engine_inv_later; unfold clock; cbn; rewrite ?Ec;
    try reflexivity; try discriminate. lra.
Qed.

Lemma pauseAudio_inv (p : Player) : engine_inv p -> engine_inv (exec pauseAudio p).
Proof.
  intros H. unfold exec, pauseAudio, bind, gets, modify; cbn.
  destruct (audioContextRef p) as [ctx|] eqn:Ec; [|exact H].
  rewrite stopAudio_eq; cbn.
  assert (engine_inv (exec stopAudio p)) as H' by now apply stopAudio_inv.
  unfold exec in H'; rewrite stopAudio_eq in H'.
  destruct (audioBuffer p); cbn; revert H'; apply engine_inv_ext; reflexivity.
Qed.

Lemma resetAudio_inv (p : Player) : engine_inv p -> engine_inv (exec resetAudio p).
Proof.
  intros H. unfold exec, resetAudio, bind, setProgress, modify; cbn.
  rewrite stopAudio_eq; cbn.
  assert (engine_inv (exec stopAudio p)) as H' by now apply stopAudio_inv.
  unfold exec in H'; rewrite stopAudio_eq in H'.
  revert H'; apply engine_inv_ext; reflexivity.
Qed.

Lemma step_inv (e : Event) (p : Player) : engine_inv p -> engine_inv (step e p).
Proof.
  intros H. unfold step. destruct e; cbn [handler].
  - (* playAudio *)
    unfold exec, playAudio_begin, bind, gets; cbn.
    destruct (audioBuffer p) as [buf|]; [|exact H].
    destruct (audioContextRef p) as [ctx|] eqn:Ec; [|exact H].
    destruct (state ctx); try (now apply playAudio_resumed_inv).
    revert H; apply engine_inv_ext; reflexivity.
  - (* resume() resolves *)
    unfold exec, resumeResolved, bind, gets; cbn -[playAudio_resumed].
    destruct (resumes p) as [|buf rest]; [exact H|].
    apply playAudio_resumed_inv.
    apply (resume_context_inv (with_resumes rest p)).
    revert H; apply engine_inv_ext; reflexivity.
  - now apply pauseAudio_inv.
  - now apply resetAudio_inv.
  - now apply stopAudio_inv.
  - (* an animation frame *)
    unfold exec, fireFrame, bind, gets; cbn.
    destruct (find _ (frames p)) as [[h' c]|]; [|exact H].
    unfold modify; cbn. apply updateProgress_inv.
    revert H; apply engine_inv_ext; reflexivity.
  - apply advanceClock_inv; [apply elapse_nonneg|exact H].
  - (* a new sample *)
    unfold onSampleReplaced, exec, bind, modify; cbn.
    apply resetAudio_inv. revert H; apply engine_inv_ext; reflexivity.
Qed.

Lemma mounted_inv (s : AudioContextState) (strict : bool) :
  engine_inv (mounted s strict).
Proof.
  split; [discriminate|]. intros [|i] n t _ Hn; discriminate.
Qed.

Lemma run_inv (es : list Event) (p : Player) :
  engine_inv p -> engine_inv (run es p).
Proof.
  revert p; induction es as [|e es IH]; intros p H; cbn; [exact H|].
  apply IH, step_inv, H.
Qed.

(** ** [updateProgress] in closed form *)

Lemma updateProgress_eq (c : option AudioBuffer) (p : Player) :
  updateProgress c p =
  match audioContextRef p, sourceNodeRef p, c with
  | Some ctx, Some _, Some buf =>
      if Qle_bool 100 (percent ctx buf p)
      then (Normal tt, with_pauseTimeRef 0 (exec stopAudio (with_progress 100 p)))
      else (Normal tt,
            with_animationFrameRef (nextFrame p)
              (with_nextFrame (S (nextFrame p))
                 (with_frames (frames p ++ [(nextFrame p, c)])
                    (with_progress (percent ctx buf p) p))))
  | _, _, _ => (Normal tt, p)
  end.
Proof.
  unfold updateProgress, percent, bind, gets; cbn.
  destruct (audioContextRef p) as [ctx|]; [|reflexivity].
  destruct (sourceNodeRef p) as [id|]; [|reflexivity].
  destruct c as [buf|]; [|reflexivity].
  destruct (Qle_bool 100 _); [|reflexivity].
  unfold setProgress, modify, exec; cbn. rewrite !stopAudio_eq. reflexivity.
Qed.


Lemma updateProgress_clock (c : option AudioBuffer) (p : Player) :
  audioContextRef (exec (updateProgress c) p) = audioContextRef p.
Proof.
  unfold exec; rewrite updateProgress_eq.
  destruct (audioContextRef p) as [ctx|] eqn:Ec; [|now cbn].
  destruct (sourceNodeRef p) as [id|] eqn:Er; [|now cbn].
  destruct c as [buf|]; [|now cbn].
  destruct (Qle_bool 100 _); cbn; [|assumption].
  unfold exec; now rewrite stopAudio_eq.
Qed.


(** The invariant is not idle: three seconds into a run the held node does
    sound. *)
Lemma active_node_audible :
  exists n, currentNode active_at_3 = Some n /\
            audible (clock active_at_3) n = true.
Proof.
  exists (new_node ten (Some (0, 0))). split; reflexivity.
Qed.


(** ** No sample loaded *)

(** C5.  With no [audioBuffer], [playAudio] returns at its first line: it
    completes normally and the whole state (refs, React state, node store,
    scheduled frames, parked calls) is the one it was called in. *)
Theorem play_without_sample_is_noop (p : Player) :
  audioBuffer p = None ->
  playAudio p = (Normal tt, p) /\
  playAudio_begin p = (Normal tt, p) /\
  step CallPlay p = p.
Proof.
  intros E. unfold step, exec; cbn [handler].
  unfold playAudio, playAudio_begin, bind, gets; cbn. rewrite E. auto.
Qed.

Lemma play_without_sample_is_noop_witness :
  audioBuffer (mounted suspended false) = None /\
  playAudio (mounted suspended false) = (Normal tt, mounted suspended false).
Proof.
  split; [reflexivity|].
  apply (play_without_sample_is_noop (mounted suspended false)). reflexivity.
Defined.

(** ** Teardown *)

Lemma drop_frame_not_In (h : nat) (c : option AudioBuffer)
      (l : list (nat * option AudioBuffer)) :
  ~ In (h, c) (drop_frame h l).
Proof.
  unfold drop_frame. rewrite filter_In. intros [_ H]. cbn in H.
  rewrite Nat.eqb_refl in H. discriminate.
Qed.

(** With no node in [sourceNodeRef], a frame that fires reports nothing and
    schedules nothing. *)
Lemma fireFrame_idle (h : nat) (p : Player) :
  sourceNodeRef p = None ->
  fireFrame h p = (Normal tt, p) \/
  fireFrame h p = (Normal tt, with_frames (drop_frame h (frames p)) p).
Proof.
  intros Er. unfold fireFrame, bind, gets, modify; cbn.
  destruct (find _ (frames p)) as [[h' c]|]; [right|now left].
  rewrite updateProgress_eq; cbn. rewrite Er.
  now destruct (audioContextRef p).
Qed.

Lemma torn_down_intro (p q : Player) :
  sourceNodeRef q = None -> isPlaying q = false ->
  frames q = released_frames p -> torn_down p q.
Proof.
  intros Er Ei Ef. repeat split; auto.
  - intros Hh c. rewrite Ef. unfold released_frames.
    destruct (Nat.eqb (animationFrameRef p) 0) eqn:E.
    + apply Nat.eqb_eq in E. contradiction.
    + apply drop_frame_not_In.
  - unfold exec. destruct (fireFrame_idle h q Er) as [-> | ->]; reflexivity.
  - unfold exec. destruct (fireFrame_idle h q Er) as [-> | ->]; reflexivity.
  - unfold exec. destruct (fireFrame_idle h q Er) as [-> | ->]; cbn; auto.
  - unfold exec. destruct (fireFrame_idle h q Er) as [-> | ->]; cbn; auto.
  - unfold exec. destruct (fireFrame_idle h q Er) as [-> | ->]; reflexivity.
Qed.

Lemma pauseAudio_eq (p : Player) :
  pauseAudio p =
  match audioContextRef p with
  | None => (Normal tt, p)
  | Some ctx =>
      let elapsed := currentTime ctx - startTimeRef p in
      let q := exec stopAudio (with_pauseTimeRef elapsed p) in
      (Normal tt,
       match audioBuffer p with
       | Some buf => with_progress (elapsed / duration buf * 100) q
       | None => q
       end)
  end.
Proof.
  unfold pauseAudio, bind, gets, modify, setProgress, exec; cbn.
  destruct (audioContextRef p) as [ctx|]; [|reflexivity].
  rewrite !stopAudio_eq; cbn. now destruct (audioBuffer p).
Qed.

Lemma resetAudio_eq (p : Player) :
  resetAudio p =
  (Normal tt, with_progress 0 (with_pauseTimeRef 0 (exec stopAudio p))).
Proof.
  unfold resetAudio, bind, modify, setProgress, exec; cbn.
  now rewrite !stopAudio_eq.
Qed.

Lemma onSampleReplaced_eq (b : option AudioBuffer) (p : Player) :
  onSampleReplaced b p =
  (Normal tt,
   with_progress 0 (with_pauseTimeRef 0 (exec stopAudio (with_audioBuffer b p)))).
Proof.
  unfold onSampleReplaced, bind, modify; cbn. now rewrite resetAudio_eq.
Qed.

Arguments pauseAudio : simpl never.
Arguments resetAudio : simpl never.
Arguments onSampleReplaced : simpl never.

(** C7.  Each teardown path ([pauseAudio], [resetAudio], the sample-change
    effect, and [stopAudio] itself) completes normally in every state, also
    one whose node has already stopped or finished so that [stop()] raises
    inside the [try]: no exception leaves the call, the node is released,
    the scheduled frame is cancelled and [isPlaying] is cleared.
    ([pauseAudio] needs the context to exist, or it returns at once.) *)
Theorem teardown_is_safe (p : Player) (b : option AudioBuffer) :
  audioContextRef p <> None ->
  (completes pauseAudio p = true /\ torn_down p (exec pauseAudio p)) /\
  (completes resetAudio p = true /\ torn_down p (exec resetAudio p)) /\
  (completes (onSampleReplaced b) p = true /\
   torn_down p (exec (onSampleReplaced b) p)) /\
  (completes stopAudio p = true /\ torn_down p (exec stopAudio p)).
Proof.
  intros Hc. unfold completes, exec.
  rewrite pauseAudio_eq, resetAudio_eq, onSampleReplaced_eq, stopAudio_eq.
  destruct (audioContextRef p) as [ctx|] eqn:Ec; [|congruence].
  unfold exec; rewrite !stopAudio_eq.
  split; [|split; [|split]]; (split; [reflexivity|]).
  - destruct (audioBuffer p); apply torn_down_intro; reflexivity.
  - apply torn_down_intro; reflexivity.
  - apply torn_down_intro; reflexivity.
  - apply torn_down_intro; reflexivity.
Qed.

Lemma finished_strict_stop_raises : stop_raises finished_strict.
Proof.
  exists 0%nat, {| currentTime := 0 + 12; state := running; strictStop := true |},
    (new_node ten (Some (0, 0))), InvalidStateError.
  repeat split.
Qed.

Lemma teardown_is_safe_witness :
  audioContextRef finished_strict <> None /\
  completes pauseAudio finished_strict = true /\
  torn_down finished_strict (exec pauseAudio finished_strict).
Proof.
  split; [discriminate|].
  apply (teardown_is_safe finished_strict None). discriminate.
Defined.

(** ** Starting a run *)

Lemma playAudio_eq (p : Player) :
  playAudio p =
  match audioBuffer p, audioContextRef p with
  | Some buf, Some _ => playAudio_resumed buf (woken p)
  | _, _ => (Normal tt, p)
  end.
Proof.
  unfold playAudio, woken, bind, gets, resume_context, modify, ret; cbn.
  destruct (audioBuffer p) as [buf|]; [|reflexivity].
  destruct (audioContextRef p) as [ctx|] eqn:Ec; [|reflexivity].
  destruct (state ctx); cbn; rewrite ?Ec; reflexivity.
Qed.

Arguments playAudio : simpl never.

Lemma woken_fields (p : Player) :
  audioBuffer (woken p) = audioBuffer p /\
  sourceNodeRef (woken p) = sourceNodeRef p /\
  pauseTimeRef (woken p) = pauseTimeRef p /\
  nodes (woken p) = nodes p /\
  frames (woken p) = frames p /\
  nextFrame (woken p) = nextFrame p /\
  resumes (woken p) = resumes p.
Proof.
  unfold woken. destruct (audioContextRef p) as [ctx|]; [|now repeat split].
  destruct (state ctx); now repeat split.
Qed.

Lemma percent_at_start (ctx : AudioContext) (b : AudioBuffer) (o : Q) (p : Player) :
  startTimeRef p = currentTime ctx - o ->
  percent ctx b p == o / duration b * 100.
Proof.
  intros E. unfold percent. rewrite E.
  assert (currentTime ctx - (currentTime ctx - o) == o) as -> by ring.
  reflexivity.
Qed.

Lemma Qle_bool_false (x y : Q) : y < x -> Qle_bool x y = false.
Proof.
  intros H. destruct (Qle_bool x y) eqn:E; [|reflexivity].
  apply Qle_bool_iff in E. lra.
Qed.

(** From rest (no node held) and a stored offset [o] short of the end,
    [playAudio] completes, starts a node at [o] and leaves the loop
    scheduled. *)
Lemma playAudio_from_rest (p : Player) (b : AudioBuffer) (ctx : AudioContext) :
  audioBuffer p = Some b -> audioContextRef p = Some ctx ->
  sourceNodeRef p = None ->
  0 <= pauseTimeRef p -> pauseTimeRef p / duration b * 100 < 100 ->
  let q := exec playAudio p in
  completes playAudio p = true /\
  plays_from b (pauseTimeRef p) p q /\
  isPlaying q = true /\
  pauseTimeRef q = pauseTimeRef p /\
  audioBuffer q = Some b /\
  progress q == pauseTimeRef p / duration b * 100 /\
  animationFrameRef q = nextFrame p /\
  nextFrame q = S (nextFrame p) /\
  frames q = frames p ++ [(nextFrame p, Some b)] /\
  resumes q = resumes p /\
  exists ctx', audioContextRef q = Some ctx' /\ state ctx' <> suspended /\
               (state ctx <> closed -> state ctx' = running) /\
               strictStop ctx' = strictStop ctx.
Proof.
  intros Eb Ec Er Ho Hd. unfold completes, exec.
  rewrite playAudio_eq, Eb, Ec, playAudio_resumed_split. unfold bind.
  destruct (woken_fields p) as (Wb & Wr & Ep & En & Wf & Wn & Ws).
  assert (exists ctx', audioContextRef (woken p) = Some ctx' /\
            currentTime ctx' = currentTime ctx /\ state ctx' <> suspended /\
            (state ctx <> closed -> state ctx' = running) /\
            strictStop ctx' = strictStop ctx) as (ctx' & Ec' & Et & Es & Es' & Ess).
  { unfold woken. rewrite Ec. destruct (state ctx) eqn:S; cbn.
    - eexists; repeat split; cbn; auto. discriminate.
    - exists ctx; rewrite S; repeat split; auto. discriminate.
    - exists ctx; rewrite S; repeat split; auto. discriminate. congruence. }
  rewrite stop_existing_eq, Wr, Er. rewrite start_new_eq, Ec', Ep.
  apply Qle_bool_iff in Ho. rewrite Ho.
  rewrite updateProgress_eq. cbn [audioContextRef sourceNodeRef started_state
    with_isPlaying with_sourceNodeRef with_nodes with_startTimeRef].
  rewrite Ec'.
  assert (percent ctx' b (started_state b ctx' (woken p))
          == pauseTimeRef p / duration b * 100) as Epc.
  { rewrite (percent_at_start ctx' b (pauseTimeRef p)); [reflexivity|].
    cbn. now rewrite Ep. }
  rewrite Qle_bool_false by (rewrite Epc; exact Hd).
  assert (clock p = currentTime ctx) as Ek by (unfold clock; now rewrite Ec).
  cbn. rewrite Wb, Ep, Wf, Wn, Ws.
  repeat split; auto.
  - unfold currentNode; cbn. rewrite nth_error_app_last, ?Ep, ?En, ?Et, ?Ek.
    reflexivity.
  - cbn. now rewrite ?Ep, ?Et, ?Ek.
  - unfold clock; cbn. now rewrite Ec', Ec.
  - cbn. rewrite length_app, ?En; cbn. lia.
  - exists ctx'. auto.
Qed.

(** ** Reset and natural completion *)

Lemma rest_at_zero_restarts (q : Player) :
  sourceNodeRef q = None -> pauseTimeRef q = 0 -> restarts_from_zero q.
Proof.
  intros Er Ep b ctx Eb Ec.
  assert (0 <= pauseTimeRef q) as H0 by (rewrite Ep; apply Qle_refl).
  assert (pauseTimeRef q / duration b * 100 < 100) as H1.
  { rewrite Ep. assert (0 / duration b * 100 == 0) as -> by (unfold Qdiv; ring).
    reflexivity. }
  destruct (playAudio_from_rest q b ctx Eb Ec Er H0 H1) as (C & P & I & _).
  rewrite Ep in P. auto.
Qed.

(** C3.  [resetAudio], and the effect that runs when the sample is replaced,
    complete in any state, active or not, and leave the session not active,
    with no node, [pauseTimeRef] 0 and progress 0; the effect has adopted the
    new sample; and a [playAudio] that follows starts a node at offset 0 of
    the sample then loaded. *)
Theorem reset_restores_initial_state (p : Player) (b' : option AudioBuffer) :
  let q := exec resetAudio p in
  let r := exec (onSampleReplaced b') p in
  (completes resetAudio p = true /\ initial_session q /\
   audioBuffer q = audioBuffer p /\ restarts_from_zero q) /\
  (completes (onSampleReplaced b') p = true /\ initial_session r /\
   audioBuffer r = b' /\ restarts_from_zero r).
Proof.
  cbv zeta. unfold completes, exec.
  rewrite resetAudio_eq, onSampleReplaced_eq. unfold exec.
  rewrite !stopAudio_eq. cbn.
  split; (split; [reflexivity|]); (split; [|split; [reflexivity|]]).
  - repeat split; reflexivity.
  - apply rest_at_zero_restarts; reflexivity.
  - repeat split; reflexivity.
  - apply rest_at_zero_restarts; reflexivity.
Qed.

(** C4.  A tick that finds the elapsed time at or past the duration (a
    fraction of at least 1) publishes exactly 100 percent, a fraction of 1,
    tears the session down as [pauseAudio] does, sets [pauseTimeRef] back to
    0 and schedules no further frame; a [playAudio] that follows starts at
    offset 0. *)
Theorem completion_clamps_and_rewinds (p : Player) (b : AudioBuffer)
        (ctx : AudioContext) (id : nat) :
  audioContextRef p = Some ctx -> sourceNodeRef p = Some id ->
  0 < duration b ->
  1 <= (currentTime ctx - startTimeRef p) / duration b ->
  let q := exec (updateProgress (Some b)) p in
  completes (updateProgress (Some b)) p = true /\
  progress q = 100 /\ progressFraction q == 1 /\
  torn_down p q /\
  pauseTimeRef q = 0 /\
  nextFrame q = nextFrame p /\ animationFrameRef q = animationFrameRef p /\
  (forall f, In f (frames q) -> In f (frames p)) /\
  audioBuffer q = audioBuffer p /\
  restarts_from_zero q.
Proof.
  intros Ec Er Hd Hf. cbv zeta. unfold completes, exec.
  rewrite updateProgress_eq, Ec, Er.
  assert (Qle_bool 100 (percent ctx b p) = true) as ->.
  { apply Qle_bool_iff. unfold percent.
    set (f := (currentTime ctx - startTimeRef p) / duration b) in *. lra. }
  unfold exec. rewrite stopAudio_eq. cbn.
  do 3 (split; [reflexivity|]).
  split; [|do 3 (split; [reflexivity|]); split; [|split; [reflexivity|]]].
  - apply torn_down_intro; reflexivity.
  - unfold released_frames; cbn. intros f.
    destruct (Nat.eqb (animationFrameRef p) 0); [auto|].
    unfold drop_frame. rewrite filter_In. tauto.
  - apply rest_at_zero_restarts; reflexivity.
Qed.

Lemma completion_clamps_and_rewinds_witness :
  progress (exec (updateProgress (Some ten)) overdue) = 100 /\
  pauseTimeRef (exec (updateProgress (Some ten)) overdue) = 0 /\
  restarts_from_zero (exec (updateProgress (Some ten)) overdue).
Proof.
  pose proof (completion_clamps_and_rewinds overdue ten
                {| currentTime := 0 + 12; state := running; strictStop := false |}
                0%nat eq_refl eq_refl) as H.
  cbv zeta in H.
  assert (0 < duration ten) as H1 by reflexivity.
  assert (1 <= (currentTime {| currentTime := 0 + 12; state := running;
                               strictStop := false |}
                - startTimeRef overdue) / duration ten) as H2
    by (vm_compute; discriminate).
  destruct (H H1 H2) as (_ & A & _ & _ & B & _ & _ & _ & _ & C).
  auto.
Defined.

(** ** A run between [playAudio] and [pauseAudio] *)

Lemma total_nonneg (dts : list Q) : Forall (Qle 0) dts -> 0 <= total dts.
Proof.
  induction 1 as [|d l Hd _ IH]; [apply Qle_refl|].
  change (0 <= d + total l). lra.
Qed.

Lemma total_cons (d : Q) (l : list Q) : total (d :: l) = d + total l.
Proof. reflexivity. Qed.

Lemma find_app_fresh (h : nat) (c : option AudioBuffer)
      (l : list (nat * option AudioBuffer)) :
  (forall f, In f l -> (fst f < h)%nat) ->
  find (fun f => Nat.eqb (fst f) h) (l ++ [(h, c)]) = Some (h, c).
Proof.
  induction l as [|a l IH]; cbn; intros H.
  - now rewrite Nat.eqb_refl.
  - destruct (Nat.eqb (fst a) h) eqn:E.
    + apply Nat.eqb_eq in E. specialize (H a (or_introl eq_refl)). lia.
    + apply IH. intros f Hf. apply H. now right.
Qed.

Lemma In_drop_frame (h : nat) (f : nat * option AudioBuffer)
      (l : list (nat * option AudioBuffer)) :
  In f (drop_frame h l) -> In f l.
Proof. unfold drop_frame. rewrite filter_In. tauto. Qed.

Lemma percent_below (ctx : AudioContext) (b : AudioBuffer) (p : Player) :
  0 < duration b -> currentTime ctx - startTimeRef p < duration b ->
  Qle_bool 100 (percent ctx b p) = false.
Proof.
  intros Hd He. apply Qle_bool_false. unfold percent.
  assert ((currentTime ctx - startTimeRef p) / duration b < 1) as H
    by (apply Qlt_shift_div_r; lra).
  set (f := (currentTime ctx - startTimeRef p) / duration b) in *. lra.
Qed.

Lemma framePeriod_looping (b : AudioBuffer) (T0 dt : Q) (p : Player) :
  looping b T0 p -> 0 < duration b ->
  clock p + dt - T0 < duration b ->
  let q := exec (framePeriod dt) p in
  looping b T0 q /\ clock q = clock p + dt /\
  pauseTimeRef q = pauseTimeRef p /\ nodes q = nodes p /\
  sourceNodeRef q = sourceNodeRef p /\ isPlaying q = isPlaying p /\
  resumes q = resumes p.
Proof.
  intros (Eb & (ctx & Ec & Es) & Er & Et & Ef & Hfr) Hd He. cbv zeta.
  unfold exec, framePeriod, advanceClock, bind, gets, modify. cbn.
  rewrite Ec, Es. cbn.
  unfold fireFrame, bind, gets, modify. cbn. rewrite Ef.
  rewrite updateProgress_eq. cbn.
  destruct (sourceNodeRef p) as [id|] eqn:Er'; [|congruence].
  rewrite percent_below; cycle 1.
  - exact Hd.
  - cbn. unfold clock in He. rewrite Ec in He. now rewrite Et.
  - cbn. unfold looping, clock. cbn. rewrite Ec.
    split; [|now repeat split].
    split; [exact Eb|]. split; [eexists; split; reflexivity|].
    split; [congruence|]. split; [exact Et|]. split.
    + apply find_app_fresh. intros f Hf.
      apply Hfr. now apply In_drop_frame in Hf.
    + intros f Hf. cbn in Hf. apply in_app_or in Hf as [Hf|[<-|[]]].
      * apply In_drop_frame in Hf. apply Hfr in Hf. cbn. lia.
      * cbn. lia.
Qed.

Lemma playFor_looping (b : AudioBuffer) (T0 : Q) (dts : list Q) (p : Player) :
  looping b T0 p -> 0 < duration b -> Forall (Qle 0) dts ->
  clock p + total dts - T0 < duration b ->
  let q := exec (playFor dts) p in
  looping b T0 q /\ clock q == clock p + total dts /\
  pauseTimeRef q = pauseTimeRef p /\ nodes q = nodes p /\
  sourceNodeRef q = sourceNodeRef p /\ isPlaying q = isPlaying p /\
  resumes q = resumes p.
Proof.
  intros L Hd Hs. revert p L.
  induction Hs as [|d l H0 Hl IH]; intros p L He.
  - cbn. split; [exact L|]. split; [ring|]. now repeat split.
  - rewrite total_cons in *. cbn [playFor].
    pose proof (total_nonneg l Hl) as Hn.
    destruct (framePeriod_looping b T0 d p L Hd) as (L1 & C1 & P1 & N1 & R1 & I1 & S1);
      [lra|].
    unfold exec, bind in *.
    destruct (framePeriod d p) as [[[]|e] p1] eqn:E1; cbn in *.
    + destruct (IH p1 L1) as (L2 & C2 & P2 & N2 & R2 & I2 & S2).
      * rewrite C1. lra.
      * split; [exact L2|]. split; [rewrite C2, C1; ring|].
        repeat split; congruence.
    + (* a frame period never raises *)
      exfalso. revert E1.
      unfold framePeriod, advanceClock, fireFrame, bind, gets, modify. cbn.
      destruct (find _ _) as [[h c]|]; [|discriminate].
      rewrite updateProgress_eq.
      repeat match goal with
             | |- context [match ?x with _ => _ end] => destruct x
             end; discriminate.
Qed.

Lemma released_frames_fresh (p : Player) :
  frames_fresh p -> forall f, In f (released_frames p) -> (fst f < nextFrame p)%nat.
Proof.
  intros H f. unfold released_frames.
  destruct (Nat.eqb (animationFrameRef p) 0); [apply H|].
  intros Hf. apply H. now apply In_drop_frame in Hf.
Qed.

Lemma advanceClock_looping (b : AudioBuffer) (T0 d : Q) (p : Player) :
  looping b T0 p ->
  let q := exec (advanceClock d) p in
  looping b T0 q /\ clock q = clock p + d /\ pauseTimeRef q = pauseTimeRef p.
Proof.
  intros (Eb & (ctx & Ec & Es) & Er & Et & Ef & Hfr). cbv zeta.
  unfold exec, advanceClock, modify, looping, clock, frames_fresh. cbn.
  rewrite Ec, Es. cbn.
  split; [|split; reflexivity].
  split; [exact Eb|]. split; [eexists; split; reflexivity|].
  split; [exact Er|]. split; [exact Et|]. split; [exact Ef|exact Hfr].
Qed.

(** One run: from rest at the stored offset, [playAudio], a stretch of
    frame periods and a last wait of [d] seconds that stay short of the
    end, [pauseAudio]. *)
Lemma run_then_pause (p : Player) (b : AudioBuffer) (ctx : AudioContext)
      (dts : list Q) (d : Q) :
  audioBuffer p = Some b -> audioContextRef p = Some ctx ->
  state ctx <> closed -> sourceNodeRef p = None ->
  0 <= pauseTimeRef p -> frames_fresh p -> Forall (Qle 0) dts -> 0 <= d ->
  pauseTimeRef p + (total dts + d) < duration b ->
  let q := exec playAudio p in
  let r := exec pauseAudio (exec (advanceClock d) (exec (playFor dts) q)) in
  plays_from b (pauseTimeRef p) p q /\ isPlaying q = true /\
  pauseTimeRef r == pauseTimeRef p + (total dts + d) /\
  progressFraction r == (pauseTimeRef p + (total dts + d)) / duration b /\
  audioBuffer r = Some b /\
  (exists ctx', audioContextRef r = Some ctx' /\ state ctx' = running) /\
  sourceNodeRef r = None /\ isPlaying r = false /\ frames_fresh r.
Proof.
  intros Eb Ec Es Er Ho Hfr Hs H0 Hlt. cbv zeta.
  pose proof (total_nonneg dts Hs) as Hn.
  assert (0 < duration b) as Hd by lra.
  assert (pauseTimeRef p / duration b * 100 < 100) as Hp.
  { assert (pauseTimeRef p / duration b < 1) as H
      by (apply Qlt_shift_div_r; lra).
    set (f := pauseTimeRef p / duration b) in *. lra. }
  destruct (playAudio_from_rest p b ctx Eb Ec Er Ho Hp)
    as (_ & Pf & Ip & Pq & Bq & _ & Aq & Nq & Fq & _ & ctx1 & Ec1 & _ & Es1 & _).
  set (q := exec playAudio p) in *.
  destruct Pf as (Cn & St & Ck & Ln).
  assert (looping b (clock p - pauseTimeRef p) q) as L.
  { split; [exact Bq|]. split; [exists ctx1; auto|].
    split; [unfold currentNode in Cn; destruct (sourceNodeRef q); congruence|].
    split; [exact St|]. split.
    - rewrite Fq, Aq. now apply find_app_fresh.
    - intros f. rewrite Fq, Nq. intros Hf.
      apply in_app_or in Hf as [Hf|[<-|[]]]; [apply Hfr in Hf|cbn]; lia. }
  destruct (playFor_looping b _ dts q L Hd Hs)
    as (L1 & C1 & P1 & _ & _ & _ & _); [rewrite Ck; lra|].
  set (q1 := exec (playFor dts) q) in *.
  destruct (advanceClock_looping b _ d q1 L1) as (L2 & C2 & P2).
  set (q2 := exec (advanceClock d) q1) in *.
  destruct L2 as (B2 & (ctx2 & Ec2 & Es2) & R2 & S2 & _ & Fr2).
  assert (currentTime ctx2 - startTimeRef q2
          == pauseTimeRef p + (total dts + d)) as El.
  { unfold clock in C2 at 1. rewrite Ec2 in C2. rewrite C2, C1, S2, Ck. ring. }
  set (e := currentTime ctx2 - startTimeRef q2) in *.
  assert (exec pauseAudio q2
          = with_progress (e / duration b * 100)
              (with_isPlaying false
                 (with_frames (released_frames (with_pauseTimeRef e q2))
                    (with_sourceNodeRef None
                       (with_nodes (released_nodes (with_pauseTimeRef e q2))
                          (with_pauseTimeRef e q2)))))) as ->.
  { unfold exec. rewrite pauseAudio_eq, Ec2, B2. cbv zeta.
    unfold exec. rewrite stopAudio_eq. reflexivity. }
  cbn.
  split; [exact (conj Cn (conj St (conj Ck Ln)))|]. split; [exact Ip|].
  split; [exact El|]. split.
  - unfold progressFraction; cbn. rewrite El. field. lra.
  - split; [exact B2|]. split; [exists ctx2; auto|].
    split; [reflexivity|]. split; [reflexivity|].
    intros f Hf. cbn in *.
    apply (released_frames_fresh (with_pauseTimeRef e q2)) in Hf; auto.
Qed.

(** C1.  A fresh session on a sample of duration D: [playAudio] starts the
    node at offset 0 with [startTimeRef = now - 0]; after p seconds of
    playback (frame periods, then a last wait [d1]) [pauseAudio] stores p in
    [pauseTimeRef]; after any idle time [w], [playAudio] starts a new node at
    offset p with [startTimeRef = now - p]; and after a second run of q
    seconds (with p + q < D) [pauseAudio] stores p + q: no time is counted
    twice or lost. *)
Theorem resume_is_continuous (s : AudioContextState) (strict : bool)
        (b : AudioBuffer) (dts1 dts2 : list Q) (d1 d2 w : Q) :
  s <> closed ->
  Forall (Qle 0) dts1 -> 0 <= d1 -> Forall (Qle 0) dts2 -> 0 <= d2 ->
  let p := total dts1 + d1 in
  let q := total dts2 + d2 in
  0 < p -> p + q < duration b ->
  let fresh := exec (onSampleReplaced (Some b)) (mounted s strict) in
  let run1 := exec playAudio fresh in
  let paused1 :=
    exec pauseAudio (exec (advanceClock d1) (exec (playFor dts1) run1)) in
  let idle := exec (advanceClock w) paused1 in
  let run2 := exec playAudio idle in
  let paused2 :=
    exec pauseAudio (exec (advanceClock d2) (exec (playFor dts2) run2)) in
  plays_from b 0 fresh run1 /\ isPlaying run1 = true /\
  pauseTimeRef paused1 == p /\ isPlaying paused1 = false /\
  plays_from b (pauseTimeRef paused1) idle run2 /\ isPlaying run2 = true /\
  pauseTimeRef paused2 == p + q /\
  progressFraction paused2 == (p + q) / duration b /\
  isPlaying paused2 = false.
Proof.
  intros Hs H1 D1 H2 D2 p q Hp Hlt. cbv zeta. subst p q.
  pose proof (total_nonneg dts2 H2) as Hn2.
  set (fresh := exec (onSampleReplaced (Some b)) (mounted s strict)).
  assert (audioBuffer fresh = Some b) as Fb by reflexivity.
  assert (audioContextRef fresh
          = Some {| currentTime := 0; state := s; strictStop := strict |})
    as Fc by reflexivity.
  assert (sourceNodeRef fresh = None) as Fr by reflexivity.
  assert (pauseTimeRef fresh = 0) as Fp by reflexivity.
  assert (frames_fresh fresh) as Ff by (intros f []).
  destruct (run_then_pause fresh b _ dts1 d1 Fb Fc Hs Fr)
    as (P1 & I1 & T1 & _ & B1 & (c1 & Ec1 & Es1) & R1 & A1 & Fr1);
    try (rewrite Fp); auto; try lra.
  rewrite Fp in P1, T1.
  set (paused1 := exec pauseAudio
                    (exec (advanceClock d1)
                       (exec (playFor dts1) (exec playAudio fresh)))) in *.
  set (idle := exec (advanceClock w) paused1).
  assert (audioBuffer idle = Some b /\ sourceNodeRef idle = None /\
          pauseTimeRef idle = pauseTimeRef paused1 /\
          frames idle = frames paused1 /\ nextFrame idle = nextFrame paused1 /\
          audioContextRef idle
          = Some {| currentTime := currentTime c1 + w; state := running;
                    strictStop := strictStop c1 |})
    as (Ib & Ir & Ip & If & In & Ic).
  { unfold idle, exec, advanceClock, modify; cbn. rewrite Ec1, Es1. cbn.
    repeat split; auto. }
  destruct (run_then_pause idle b _ dts2 d2 Ib Ic)
    as (P2 & I2 & T2 & G2 & _ & _ & _ & A2 & _);
    try discriminate; auto.
  - rewrite Ip, T1. lra.
  - intros f. rewrite If, In. apply Fr1.
  - rewrite Ip, T1. lra.
  - rewrite Ip in P2, T2, G2.
    split; [exact P1|]. split; [exact I1|]. split; [rewrite T1; ring|].
    split; [exact A1|]. split; [exact P2|]. split; [exact I2|].
    split; [rewrite T2, T1; ring|]. split; [|exact A2].
    rewrite G2, T1.
    setoid_replace (0 + (total dts1 + d1) + (total dts2 + d2))
      with (total dts1 + d1 + (total dts2 + d2)) by ring. reflexivity.
Qed.

Lemma resume_is_continuous_witness :
  pauseTimeRef
    (exec pauseAudio
       (exec (advanceClock (1 # 2))
          (exec (playFor [1; 3 # 2])
             (exec playAudio
                (exec (onSampleReplaced (Some ten)) (mounted suspended false))))))
  == 3.
Proof.
  assert (suspended <> closed) as Hs by discriminate.
  assert (Forall (Qle 0) [1; 3 # 2]) as H1
    by (repeat constructor; discriminate).
  assert (Forall (Qle 0) [4]) as H2 by (repeat constructor; discriminate).
  assert (0 <= 1 # 2) as D1 by discriminate.
  assert (0 <= 0) as D2 by discriminate.
  assert (0 < total [1; 3 # 2] + (1 # 2)) as Hp by reflexivity.
  assert (total [1; 3 # 2] + (1 # 2) + (total [4] + 0) < duration ten)
    as Hlt by reflexivity.
  destruct (resume_is_continuous suspended false ten [1; 3 # 2] [4]
              (1 # 2) 0 (1 # 2) Hs H1 D1 H2 D2 Hp Hlt) as (_ & _ & T & _).
  rewrite T. reflexivity.
Defined.

(** ** Calls out of turn *)

(** C6, as stated, fails.  [pauseAudio] on the paused session moves the
    stored offset from 3 to 5 and the progress from 30 to 50; [playAudio] on
    the active session throws the position back from 3 to 0 and the
    progress from 30 to 0. *)
Lemma extra_call_is_not_a_noop :
  (isPlaying paused_at_3_later = false /\
   pauseTimeRef paused_at_3_later == 3 /\
   progress paused_at_3_later == 30 /\
   pauseTimeRef (exec pauseAudio paused_at_3_later) == 5 /\
   progress (exec pauseAudio paused_at_3_later) == 50 /\
   ~ pauseTimeRef (exec pauseAudio paused_at_3_later)
     == pauseTimeRef paused_at_3_later) /\
  (isPlaying active_at_3 = true /\
   position_is active_at_3 3 /\
   progress active_at_3 == 30 /\
   position_is (exec playAudio active_at_3) 0 /\
   progress (exec playAudio active_at_3) == 0 /\
   ~ position_is (exec playAudio active_at_3) 3).
Proof.
  split.
  - do 5 (split; [vm_compute; reflexivity|]).
    intros H; vm_compute in H; discriminate.
  - do 5 (split; [vm_compute; reflexivity|]).
    intros H; vm_compute in H; discriminate.
Qed.

Lemma node_stop_woken (p : Player) (ctx ctx' : AudioContext) (n : SourceNode) :
  audioContextRef p = Some ctx -> audioContextRef (woken p) = Some ctx' ->
  node_stop ctx' n = node_stop ctx n.
Proof.
  unfold woken. intros Ec. rewrite Ec.
  destruct (state ctx); cbn; rewrite ?Ec; intros E; injection E as <-;
    reflexivity.
Qed.

(** [playAudio] on a session that holds a node whose [stop()] returns:
    the node is stopped and a new one starts at the stored offset. *)
Lemma playAudio_while_active (p : Player) (b : AudioBuffer) (ctx : AudioContext)
      (id : nat) (n m : SourceNode) :
  audioBuffer p = Some b -> audioContextRef p = Some ctx ->
  sourceNodeRef p = Some id -> nth_error (nodes p) id = Some n ->
  node_stop ctx n = Normal m ->
  0 <= pauseTimeRef p -> pauseTimeRef p / duration b * 100 < 100 ->
  let q := exec playAudio p in
  completes playAudio p = true /\
  plays_from b (pauseTimeRef p) p q /\
  isPlaying q = true /\
  pauseTimeRef q = pauseTimeRef p /\
  nth_error (nodes q) id = Some m /\
  sourceNodeRef q = Some (List.length (nodes p)).
Proof.
  intros Eb Ec Er En Em Ho Hd. unfold completes, exec.
  rewrite playAudio_eq, Eb, Ec, playAudio_resumed_split. unfold bind.
  destruct (woken_fields p) as (Wb & Wr & Ep & Wn & Wf & Wx & Ws).
  assert (exists ctx', audioContextRef (woken p) = Some ctx' /\
            currentTime ctx' = currentTime ctx) as (ctx' & Ec' & Et).
  { unfold woken. rewrite Ec. destruct (state ctx) eqn:S; cbn;
      rewrite ?Ec; eexists; split; reflexivity. }
  rewrite stop_existing_eq, Wr, Er, Ec', Wn, En.
  rewrite (node_stop_woken p ctx ctx' n Ec Ec'), Em.
  rewrite start_new_eq. cbn [audioContextRef pauseTimeRef with_nodes].
  rewrite Ec', Ep.
  apply Qle_bool_iff in Ho. rewrite Ho.
  rewrite updateProgress_eq. cbn [audioContextRef sourceNodeRef started_state
    with_isPlaying with_sourceNodeRef with_nodes with_startTimeRef].
  rewrite Ec'.
  assert (percent ctx' b
            (started_state b ctx' (with_nodes (set_nth id m (nodes p)) (woken p)))
          == pauseTimeRef p / duration b * 100) as Epc.
  { rewrite (percent_at_start ctx' b (pauseTimeRef p)); [reflexivity|].
    cbn. now rewrite Ep. }
  rewrite Qle_bool_false by (rewrite Epc; exact Hd).
  assert (clock p = currentTime ctx) as Ek by (unfold clock; now rewrite Ec).
  assert (id < List.length (nodes p))%nat as Lt
    by (apply nth_error_Some; congruence).
  cbn. rewrite ?Ep, ?length_set_nth.
  split; [reflexivity|]. split.
  - unfold plays_from, currentNode; cbn.
    rewrite ?length_set_nth, ?Ep, ?Et, ?Ek.
    rewrite <- (length_set_nth (nodes p) id m) at 1.
    rewrite nth_error_app_last, length_app, length_set_nth.
    split; [reflexivity|]. split; [reflexivity|]. split.
    + unfold clock; cbn. now rewrite Ec', Et.
    + cbn. lia.
  - repeat split; auto.
    rewrite nth_error_app1 by (rewrite length_set_nth; exact Lt).
    rewrite nth_error_set_nth, Nat.eqb_refl, En. reflexivity.
Qed.

Lemma plays_from_position (b : AudioBuffer) (o : Q) (p q : Player) :
  plays_from b o p q -> position_is q o.
Proof.
  intros (Cn & _ & Ck & _). unfold position_is, position.
  rewrite Cn. unfold playhead; cbn. rewrite Ck. ring.
Qed.

(** C6, amended.  Neither call is guarded in the controller; the transport
    button picks [pauseAudio] while [isPlaying] and [playAudio] otherwise.
    [pauseAudio], whether the session is active or not, overwrites
    [pauseTimeRef] with [now - startTimeRef], publishes the matching
    progress and leaves the session torn down; [playAudio] on a session
    that holds a node stops that node and starts a new one at the stored
    [pauseTimeRef], with [startTimeRef = now - pauseTimeRef]. *)
Theorem extra_call_effect (p : Player) (b : AudioBuffer) (ctx : AudioContext) :
  audioBuffer p = Some b -> audioContextRef p = Some ctx ->
  (let q := exec pauseAudio p in
   completes pauseAudio p = true /\
   pauseTimeRef q = currentTime ctx - startTimeRef p /\
   progress q = (currentTime ctx - startTimeRef p) / duration b * 100 /\
   torn_down p q) /\
  (forall id n m,
     sourceNodeRef p = Some id -> nth_error (nodes p) id = Some n ->
     node_stop ctx n = Normal m ->
     0 <= pauseTimeRef p -> pauseTimeRef p < duration b ->
     let r := exec playAudio p in
     completes playAudio p = true /\
     plays_from b (pauseTimeRef p) p r /\
     position_is r (pauseTimeRef p) /\
     isPlaying r = true /\ pauseTimeRef r = pauseTimeRef p /\
     exists m', nth_error (nodes r) id = Some m' /\ stopped m' = true) /\
  clickTransport p = (if isPlaying p then pauseAudio p else playAudio p).
Proof.
  intros Eb Ec. split; [|split].
  - cbv zeta. unfold completes, exec. rewrite pauseAudio_eq, Ec, Eb. cbv zeta.
    unfold exec. rewrite stopAudio_eq. cbn.
    do 3 (split; [reflexivity|]). apply torn_down_intro; reflexivity.
  - intros id n m Er En Em Ho Hlt. cbv zeta.
    assert (pauseTimeRef p / duration b * 100 < 100) as Hp.
    { assert (pauseTimeRef p / duration b < 1) as H
        by (apply Qlt_shift_div_r; lra).
      set (f := pauseTimeRef p / duration b) in *. lra. }
    destruct (playAudio_while_active p b ctx id n m Eb Ec Er En Em Ho Hp)
      as (C & P & I & Q & N & _).
    split; [exact C|]. split; [exact P|].
    split; [now apply (plays_from_position b _ p)|].
    split; [exact I|]. split; [exact Q|].
    exists m. split; [exact N|]. now apply node_stop_normal in Em.
  - unfold clickTransport, bind, gets. now destruct (isPlaying p).
Qed.

Lemma extra_call_effect_witness :
  audioBuffer active_at_3 = Some ten /\
  position_is (exec playAudio active_at_3) (pauseTimeRef active_at_3) /\
  pauseTimeRef (exec pauseAudio active_at_3)
  = currentTime {| currentTime := 0 + 3; state := running; strictStop := false |}
    - startTimeRef active_at_3.
Proof.
  destruct (extra_call_effect active_at_3 ten
              {| currentTime := 0 + 3; state := running; strictStop := false |}
              eq_refl eq_refl) as ((_ & A & _) & B & _).
  split; [reflexivity|]. split; [|exact A].
  destruct (B 0%nat (new_node ten (Some (0, 0)))
              {| buffer := Some ten; connected := true;
                 started := Some (0, 0); stopped := true |}
              eq_refl eq_refl eq_refl) as (_ & _ & P & _).
  - vm_compute; discriminate.
  - reflexivity.
  - exact P.
Defined.

(** ** What a tick publishes *)

Lemma In_released_frames (p : Player) (f : nat * option AudioBuffer) :
  In f (released_frames p) -> In f (frames p).
Proof.
  unfold released_frames. destruct (Nat.eqb (animationFrameRef p) 0); auto.
  apply In_drop_frame.
Qed.

Lemma stopAudio_timing (p : Player) : timing_inv p -> timing_inv (exec stopAudio p).
Proof.
  intros (Hc & Hs & Hp & Hi & Hf & Hb & Hr).
  unfold exec; rewrite stopAudio_eq. unfold timing_inv, clock; cbn.
  split; [exact Hc|]. split; [exact Hs|]. split; [exact Hp|].
  split; [discriminate|]. split; [|split; assumption].
  intros h c Hin. apply (Hf h c). now apply In_released_frames.
Qed.

Lemma updateProgress_timing (c : option AudioBuffer) (p : Player) :
  (forall b, c = Some b -> 0 < duration b) ->
  timing_inv p -> timing_inv (exec (updateProgress c) p).
Proof.
  intros Hcap H. unfold exec. rewrite updateProgress_eq.
  destruct (audioContextRef p) as [ctx|] eqn:Ec; [|exact H].
  destruct (sourceNodeRef p) as [id|] eqn:Er; [|exact H].
  destruct c as [buf|]; [|exact H].
  destruct (Qle_bool 100 (percent ctx buf p)).
  - assert (timing_inv (with_progress 100 p)) as H1.
    { destruct H as (Hc & Hs & Hp & Hi & Hf & Hb & Hr).
      unfold timing_inv, clock; cbn. rewrite Ec, Er in *. repeat split; auto.
      unfold clock in Hs. now rewrite Ec in Hs. }
    apply stopAudio_timing in H1.
    destruct H1 as (Hc & Hs & Hp & Hi & Hf & Hb & Hr).
    unfold timing_inv, clock in *; cbn in *.
    split; [exact Hc|]. split; [exact Hs|]. split; [apply Qle_refl|].
    split; [exact Hi|]. split; [exact Hf|]. split; assumption.
  - destruct H as (Hc & Hs & Hp & Hi & Hf & Hb & Hr).
    unfold timing_inv, clock in *; cbn in *. rewrite Ec, Er in *.
    split; [exact Hc|]. split; [exact Hs|]. split; [exact Hp|].
    split; [discriminate|]. split; [|split; assumption].
    intros h c Hin. apply in_app_or in Hin as [Hin|[E|[]]].
    + now apply (Hf h c).
    + injection E as _ <-. exists buf. split; auto.
Qed.

Lemma stop_existing_timing (p : Player) :
  timing_inv p -> timing_inv (exec stop_existing p).
Proof.
  intros H. unfold exec. rewrite stop_existing_eq.
  destruct (sourceNodeRef p) as [id|] eqn:Er; [|exact H].
  destruct (audioContextRef p) as [ctx|] eqn:Ec; [|exact H].
  destruct (nth_error (nodes p) id) as [n|]; [|exact H].
  destruct (node_stop ctx n); [|exact H].
  destruct H as (Hc & Hs & Hp & Hi & Hf & Hb & Hr).
  unfold timing_inv, clock in *; cbn in *. rewrite Ec, Er in *.
  repeat split; auto.
Qed.

Lemma start_new_timing (b : AudioBuffer) (p : Player) :
  0 < duration b -> timing_inv p -> timing_inv (exec (start_new b) p).
Proof.
  intros Hd H. unfold exec. rewrite start_new_eq.
  destruct (audioContextRef p) as [ctx|] eqn:Ec; [|exact H].
  destruct (Qle_bool 0 (pauseTimeRef p)) eqn:Eo.
  - apply updateProgress_timing; [intros ? [= <-]; exact Hd|].
    destruct H as (Hc & Hs & Hp & Hi & Hf & Hb & Hr).
    unfold timing_inv, clock in *; cbn in *. rewrite Ec in *.
    split; [exact Hc|]. split; [lra|]. split; [exact Hp|].
    split; [discriminate|]. repeat split; auto.
  - destruct H as (Hc & Hs & Hp & Hi & Hf & Hb & Hr).
    unfold timing_inv, clock in *; cbn in *. rewrite Ec in *.
    split; [exact Hc|]. split; [lra|]. repeat split; auto.
Qed.

Lemma playAudio_resumed_timing (b : AudioBuffer) (p : Player) :
  0 < duration b -> timing_inv p -> timing_inv (exec (playAudio_resumed b) p).
Proof.
  intros Hd H. rewrite playAudio_resumed_split. unfold exec, bind.
  pose proof (stop_existing_timing p H) as H1. unfold exec in H1.
  destruct (stop_existing p) as [[[]|e] q]; cbn in *; [|exact H1].
  now apply start_new_timing.
Qed.

Lemma step_timing (e : Event) (p : Player) :
  sample_ok e -> timing_inv p -> timing_inv (step e p).
Proof.
  intros He H. unfold step. destruct e; cbn [handler].
  - unfold exec, playAudio_begin, bind, gets; cbn.
    destruct (audioBuffer p) as [buf|] eqn:Eb; [|exact H].
    destruct (audioContextRef p) as [ctx|] eqn:Ec; [|exact H].
    assert (0 < duration buf) as Hd
      by (destruct H as (_ & _ & _ & _ & _ & Hb & _); now apply Hb).
    destruct (state ctx); try (now apply playAudio_resumed_timing).
    destruct H as (Hc & Hs & Hp & Hi & Hf & Hb & Hr).
    unfold timing_inv, clock in *; cbn in *. rewrite Ec, Eb in *.
    repeat split; auto.
    intros b Hin. apply in_app_or in Hin as [Hin|[<-|[]]]; auto.
  - unfold exec, resumeResolved, bind, gets; cbn -[playAudio_resumed].
    destruct (resumes p) as [|buf rest] eqn:Ers; [exact H|].
    destruct H as (Hc & Hs & Hp & Hi & Hf & Hb & Hr). rewrite Ers in Hr.
    apply playAudio_resumed_timing; [apply Hr; now left|].
    unfold timing_inv, clock in *; cbn in *.
    destruct Hc as (ctx & Ec). rewrite Ec in *. cbn.
    split; [eexists; reflexivity|]. repeat split; auto.
  - unfold exec. rewrite pauseAudio_eq.
    destruct (audioContextRef p) as [ctx|] eqn:Ec; [|exact H]. cbv zeta.
    assert (timing_inv (with_pauseTimeRef (currentTime ctx - startTimeRef p) p))
      as H1.
    { destruct H as (Hc & Hs & Hp & Hi & Hf & Hb & Hr).
      unfold timing_inv, clock in *; cbn in *. rewrite Ec in *.
      split; [exact Hc|]. split; [exact Hs|]. split; [lra|].
      repeat split; auto. }
    apply stopAudio_timing in H1.
    destruct (audioBuffer p); [|exact H1].
    destruct H1 as (Hc & Hs & Hp & Hi & Hf & Hb & Hr).
    unfold timing_inv, clock in *; cbn in *. repeat split; auto.
  - unfold exec. rewrite resetAudio_eq.
    apply stopAudio_timing in H.
    destruct H as (Hc & Hs & Hp & Hi & Hf & Hb & Hr).
    unfold timing_inv, clock in *; cbn in *.
    split; [exact Hc|]. split; [exact Hs|]. split; [apply Qle_refl|].
    repeat split; auto.
  - now apply stopAudio_timing.
  - unfold exec, fireFrame, bind, gets; cbn.
    destruct (find _ (frames p)) as [[h' c]|] eqn:Ef; [|exact H].
    unfold modify; cbn.
    apply find_some in Ef as [Hin _].
    destruct H as (Hc & Hs & Hp & Hi & Hf & Hb & Hr).
    apply updateProgress_timing.
    + intros b ->. destruct (Hf h' _ Hin) as (b' & [= <-] & Hd). exact Hd.
    + unfold timing_inv, clock in *; cbn in *.
      repeat split; auto.
      intros h0 c0 Hin0. apply In_drop_frame in Hin0. eauto.
  - unfold exec, advanceClock, modify; cbn.
    destruct (audioContextRef p) as [ctx|] eqn:Ec; [|exact H].
    destruct (state ctx); try exact H.
    pose proof (elapse_nonneg num den) as Hn.
    destruct H as (Hc & Hs & Hp & Hi & Hf & Hb & Hr).
    unfold timing_inv, clock in *; cbn in *. rewrite Ec in *.
    split; [eexists; reflexivity|]. split; [lra|]. repeat split; auto.
  - unfold exec. rewrite onSampleReplaced_eq.
    assert (timing_inv (with_audioBuffer b p)) as H1.
    { destruct H as (Hc & Hs & Hp & Hi & Hf & Hb & Hr).
      unfold timing_inv, clock in *; cbn in *. repeat split; auto.
      intros b0 ->. exact He. }
    apply stopAudio_timing in H1.
    destruct H1 as (Hc & Hs & Hp & Hi & Hf & Hb & Hr).
    unfold timing_inv, clock in *; cbn in *.
    split; [exact Hc|]. split; [exact Hs|]. split; [apply Qle_refl|].
    repeat split; auto.
Qed.

Lemma mounted_timing (s : AudioContextState) (strict : bool) :
  timing_inv (mounted s strict).
Proof.
  unfold timing_inv, clock; cbn.
  split; [eexists; reflexivity|]. split; [apply Qle_refl|].
  split; [apply Qle_refl|]. split; [discriminate|].
  split; [intros ? ? []|]. split; [discriminate|intros ? []].
Qed.

Lemma run_timing (es : list Event) (p : Player) :
  Forall sample_ok es -> timing_inv p -> timing_inv (run es p).
Proof.
  intros Hes. revert p. induction Hes as [|e es He _ IH]; intros p H; cbn.
  - exact H.
  - apply IH, step_timing; assumption.
Qed.

Lemma NoDup_map_filter {A B} (f : A -> B) (g : A -> bool) (l : list A) :
  NoDup (map f l) -> NoDup (map f (filter g l)).
Proof.
  induction l as [|a l IH]; cbn; intros H; [exact H|].
  inversion H as [|? ? Hn Hd]; subst.
  destruct (g a); cbn; [|now apply IH].
  constructor; [|now apply IH].
  intros Hin. apply Hn. apply in_map_iff in Hin as (x & E & Hx).
  apply in_map_iff. exists x. split; [exact E|].
  now apply filter_In in Hx.
Qed.

Lemma NoDup_released_frames (p : Player) :
  NoDup (map fst (frames p)) -> NoDup (map fst (released_frames p)).
Proof.
  unfold released_frames, drop_frame.
  destruct (Nat.eqb (animationFrameRef p) 0); [auto|apply NoDup_map_filter].
Qed.

Lemma unique_frame (h : nat) (c : option AudioBuffer)
      (l : list (nat * option AudioBuffer)) :
  NoDup (map fst l) -> In (h, c) l ->
  find (fun f => Nat.eqb (fst f) h) l = Some (h, c).
Proof.
  induction l as [|[h0 c0] l IH]; cbn; intros Hn Hin; [contradiction|].
  inversion Hn as [|? ? Hx Hd]; subst.
  destruct (Nat.eqb h0 h) eqn:E.
  - apply Nat.eqb_eq in E. subst h0.
    destruct Hin as [Hin|Hin]; [congruence|].
    elim Hx. apply in_map_iff. now exists (h, c).
  - destruct Hin as [Hin|Hin]; [|now apply IH].
    injection Hin as -> _. rewrite Nat.eqb_refl in E. discriminate.
Qed.

Lemma stopAudio_queue (P : AudioBuffer -> Prop) (p : Player) :
  queue_inv P p -> queue_inv P (exec stopAudio p).
Proof.
  intros (Hf & Hn & Hc & Hr & Hb).
  unfold exec; rewrite stopAudio_eq. unfold queue_inv, frames_fresh; cbn.
  split; [apply released_frames_fresh, Hf|].
  split; [apply NoDup_released_frames, Hn|].
  split; [|split; assumption].
  intros h c Hin. apply (Hc h c). now apply In_released_frames.
Qed.

Lemma updateProgress_queue (P : AudioBuffer -> Prop) (c : option AudioBuffer)
      (p : Player) :
  (forall b, c = Some b -> P b) ->
  queue_inv P p -> queue_inv P (exec (updateProgress c) p).
Proof.
  intros Hcap H. unfold exec. rewrite updateProgress_eq.
  destruct (audioContextRef p) as [ctx|] eqn:Ec; [|exact H].
  destruct (sourceNodeRef p) as [id|] eqn:Er; [|exact H].
  destruct c as [buf|]; [|exact H].
  destruct (Qle_bool 100 (percent ctx buf p)).
  - assert (queue_inv P (with_progress 100 p)) as H1 by exact H.
    apply stopAudio_queue in H1. exact H1.
  - destruct H as (Hf & Hn & Hc & Hr & Hb).
    unfold queue_inv, frames_fresh in *; cbn in *.
    split.
    { intros f Hin. apply in_app_or in Hin as [Hin|[<-|[]]]; cbn.
      - specialize (Hf f Hin). lia.
      - lia. }
    split.
    { rewrite map_app; cbn. apply NoDup_app.
      - exact Hn.
      - repeat constructor. intros [].
      - intros x Hx [<-|[]]. apply in_map_iff in Hx as (f & E & Hin).
        specialize (Hf f Hin). lia. }
    split; [|split; assumption].
    intros h c Hin. apply in_app_or in Hin as [Hin|[E|[]]].
    + now apply (Hc h c).
    + injection E as _ <-. exists buf. split; auto.
Qed.

Lemma stop_existing_queue (P : AudioBuffer -> Prop) (p : Player) :
  queue_inv P p -> queue_inv P (exec stop_existing p).
Proof.
  intros H. unfold exec. rewrite stop_existing_eq.
  destruct (sourceNodeRef p) as [id|]; [|exact H].
  destruct (audioContextRef p) as [ctx|]; [|exact H].
  destruct (nth_error (nodes p) id) as [n|]; [|exact H].
  destruct (node_stop ctx n); exact H.
Qed.

Lemma start_new_queue (P : AudioBuffer -> Prop) (b : AudioBuffer) (p : Player) :
  P b -> queue_inv P p -> queue_inv P (exec (start_new b) p).
Proof.
  intros Hd H. unfold exec. rewrite start_new_eq.
  destruct (audioContextRef p) as [ctx|]; [|exact H].
  destruct (Qle_bool 0 (pauseTimeRef p)).
  - apply updateProgress_queue; [intros ? [= <-]; exact Hd|exact H].
  - exact H.
Qed.

Lemma playAudio_resumed_queue (P : AudioBuffer -> Prop) (b : AudioBuffer)
      (p : Player) :
  P b -> queue_inv P p -> queue_inv P (exec (playAudio_resumed b) p).
Proof.
  intros Hd H. rewrite playAudio_resumed_split. unfold exec, bind.
  pose proof (stop_existing_queue P p H) as H1. unfold exec in H1.
  destruct (stop_existing p) as [[[]|e] q]; cbn in *; [|exact H1].
  now apply start_new_queue.
Qed.

Lemma step_queue (P : AudioBuffer -> Prop) (e : Event) (p : Player) :
  sample_is P e -> queue_inv P p -> queue_inv P (step e p).
Proof.
  intros He H. unfold step. destruct e; cbn [handler].
  - unfold exec, playAudio_begin, bind, gets; cbn.
    destruct (audioBuffer p) as [buf|] eqn:Eb; [|exact H].
    destruct (audioContextRef p) as [ctx|] eqn:Ec; [|exact H].
    assert (P buf) as Hd
      by (destruct H as (_ & _ & _ & _ & Hb); now apply Hb).
    destruct (state ctx); try (now apply playAudio_resumed_queue).
    destruct H as (Hf & Hn & Hc & Hr & Hb).
    unfold queue_inv, frames_fresh in *; cbn in *.
    split; [exact Hf|]. split; [exact Hn|]. split; [exact Hc|].
    split; [|exact Hb].
    intros b Hin. apply in_app_or in Hin as [Hin|[<-|[]]]; auto.
  - unfold exec, resumeResolved, bind, gets; cbn -[playAudio_resumed].
    destruct (resumes p) as [|buf rest] eqn:Ers; [exact H|].
    destruct H as (Hf & Hn & Hc & Hr & Hb). rewrite Ers in Hr.
    apply playAudio_resumed_queue; [apply Hr; now left|].
    unfold queue_inv, frames_fresh in *; cbn in *.
    destruct (audioContextRef p); cbn;
      (split; [exact Hf|]; split; [exact Hn|]; split; [exact Hc|];
       split; [|exact Hb]; intros b Hin; apply Hr; now right).
  - unfold exec. rewrite pauseAudio_eq.
    destruct (audioContextRef p) as [ctx|] eqn:Ec; [|exact H]. cbv zeta.
    assert (queue_inv P (with_pauseTimeRef (currentTime ctx - startTimeRef p) p))
      as H1 by exact H.
    apply stopAudio_queue in H1.
    destruct (audioBuffer p); exact H1.
  - unfold exec. rewrite resetAudio_eq.
    apply stopAudio_queue in H. exact H.
  - now apply stopAudio_queue.
  - unfold exec, fireFrame, bind, gets; cbn.
    destruct (find _ (frames p)) as [[h' c]|] eqn:Ef; [|exact H].
    unfold modify; cbn.
    apply find_some in Ef as [Hin _].
    destruct H as (Hf & Hn & Hc & Hr & Hb).
    apply updateProgress_queue.
    + intros b ->. destruct (Hc h' _ Hin) as (b' & [= <-] & Hd). exact Hd.
    + unfold queue_inv, frames_fresh in *; cbn in *.
      split; [intros f Hx; apply Hf; now apply In_drop_frame in Hx|].
      split; [apply NoDup_map_filter, Hn|].
      split; [|split; assumption].
      intros h0 c0 Hin0. apply In_drop_frame in Hin0. eauto.
  - unfold exec, advanceClock, modify; cbn.
    destruct (audioContextRef p) as [ctx|] eqn:Ec; [|exact H].
    destruct (state ctx); exact H.
  - unfold exec. rewrite onSampleReplaced_eq.
    assert (queue_inv P (with_audioBuffer b p)) as H1.
    { destruct H as (Hf & Hn & Hc & Hr & Hb).
      unfold queue_inv, frames_fresh in *; cbn in *.
      split; [exact Hf|]. split; [exact Hn|]. split; [exact Hc|].
      split; [exact Hr|]. intros b0 ->. exact He. }
    apply stopAudio_queue in H1. exact H1.
Qed.

Lemma mounted_queue (P : AudioBuffer -> Prop) (s : AudioContextState)
      (strict : bool) :
  queue_inv P (mounted s strict).
Proof.
  unfold queue_inv, frames_fresh; cbn.
  split; [intros ? []|]. split; [constructor|].
  split; [intros ? ? []|]. split; [intros ? []|discriminate].
Qed.

Lemma run_queue (P : AudioBuffer -> Prop) (es : list Event) (p : Player) :
  Forall (sample_is P) es -> queue_inv P p -> queue_inv P (run es p).
Proof.
  intros Hes. revert p. induction Hes as [|e es He _ IH]; intros p H; cbn.
  - exact H.
  - apply IH, step_queue; assumption.
Qed.

Lemma samples_given (es : list Event) :
  Forall (sample_is (fun b => In (NewSample (Some b)) es)) es.
Proof.
  apply Forall_forall. intros [| | | | | | |[b|]] Hin; cbn; auto.
Qed.

(** C8, as stated, fails on its second half.  The tick at three seconds
    publishes the fraction 3/10 and nothing else: the offset the label is
    rendered from stays 0, and the label reads 00:00 while the node plays at
    00:03. *)
Lemma tick_does_not_report_offset :
  isPlaying (step (Frame 1) due_at_3) = true /\
  progressFraction (step (Frame 1) due_at_3) == 3 # 10 /\
  position_is (step (Frame 1) due_at_3) 3 /\
  pauseTimeRef (step (Frame 1) due_at_3) = 0 /\
  timeLabel (step (Frame 1) due_at_3) = "00:00"%string /\
  timeLabel (step (Frame 1) due_at_3) <> formatTime 3.
Proof.
  do 5 (split; [vm_compute; reflexivity|]).
  vm_compute. discriminate.
Qed.

(** C8, amended.  In a session reached from the mounted component with
    samples of positive duration, a scheduled frame that fires while the
    session is active publishes a progress fraction in [0,1]: the elapsed
    time over the duration of the sample the frame was scheduled for, which
    is one of the samples the component was given, while that is below 1,
    and exactly 1 from then on.  It publishes nothing else: short of the
    end it leaves [pauseTimeRef], and so the time label, as they were; at
    the end it sets [pauseTimeRef] to 0. *)
Theorem tick_publishes_fraction (s : AudioContextState) (strict : bool)
        (es : list Event) (h : nat) (c : option AudioBuffer) :
  Forall sample_ok es ->
  let p := run es (mounted s strict) in
  let q := step (Frame h) p in
  isPlaying p = true -> In (h, c) (frames p) ->
  0 <= progressFraction q <= 1 /\
  exists ctx b,
    audioContextRef p = Some ctx /\
    c = Some b /\ In (NewSample (Some b)) es /\ 0 < duration b /\
    let f := (currentTime ctx - startTimeRef p) / duration b in
    0 <= f /\
    (f < 1 -> progressFraction q == f /\ isPlaying q = true /\
              pauseTimeRef q = pauseTimeRef p /\ timeLabel q = timeLabel p) /\
    (1 <= f -> progressFraction q == 1 /\ isPlaying q = false /\
               pauseTimeRef q = 0).
Proof.
  intros Hes p q Hact Hin.
  assert (timing_inv p) as (Hc & Hs & Hp & Hi & Hf & Hb & Hr)
    by (apply run_timing; [exact Hes|apply mounted_timing]).
  assert (queue_inv (fun b => In (NewSample (Some b)) es) p)
    as (_ & Hn & Hq & _ & _)
    by (apply run_queue; [apply samples_given|apply mounted_queue]).
  destruct Hc as (ctx & Ec).
  pose proof (unique_frame h c (frames p) Hn Hin) as Ef.
  destruct (Hf h c Hin) as (b & -> & Hd).
  destruct (Hq h (Some b) Hin) as (b' & [= <-] & Hgiven).
  destruct (sourceNodeRef p) as [id|] eqn:Er; [|now elim (Hi Hact)].
  unfold clock in Hs. rewrite Ec in Hs.
  set (f := (currentTime ctx - startTimeRef p) / duration b).
  assert (0 <= f) as Hf0 by (apply Qle_shift_div_l; lra).
  assert (q = exec (updateProgress (Some b))
                (with_frames (drop_frame h (frames p)) p)) as Eq.
  { unfold q, step, exec; cbn [handler].
    unfold fireFrame, bind, gets, modify. cbn -[updateProgress]. now rewrite Ef. }
  unfold exec in Eq. rewrite updateProgress_eq in Eq. cbn in Eq.
  rewrite Ec, Er in Eq.
  change (percent ctx b (with_frames (drop_frame h (frames p)) p))
    with (f * 100) in Eq.
  destruct (Qle_bool 100 (f * 100)) eqn:E.
  - apply Qle_bool_iff in E.
    unfold exec in Eq. rewrite stopAudio_eq in Eq. cbn in Eq.
    assert (progressFraction q == 1) as Ep by (rewrite Eq; reflexivity).
    split; [rewrite Ep; split; discriminate|].
    exists ctx, b. split; [exact Ec|]. split; [reflexivity|].
    split; [exact Hgiven|]. split; [exact Hd|]. cbv zeta.
    fold f. split; [exact Hf0|]. split; [intros; lra|].
    intros _. split; [exact Ep|]. rewrite Eq. cbn. split; reflexivity.
  - assert (f < 1) as Hlt.
    { destruct (Qlt_le_dec f 1) as [L|L]; [exact L|].
      assert (Qle_bool 100 (f * 100) = true) as X by (apply Qle_bool_iff; lra).
      congruence. }
    assert (progressFraction q == f) as Ep.
    { rewrite Eq. unfold progressFraction; cbn. field. }
    split; [rewrite Ep; split; lra|].
    exists ctx, b. split; [exact Ec|]. split; [reflexivity|].
    split; [exact Hgiven|]. split; [exact Hd|]. cbv zeta.
    fold f. split; [exact Hf0|]. split; [|intros; lra].
    intros _. split; [exact Ep|]. rewrite Eq. cbn.
    split; [exact Hact|]. split; reflexivity.
Qed.

Lemma tick_publishes_fraction_witness :
  0 <= progressFraction (step (Frame 1) due_at_3) <= 1.
Proof.
  assert (Forall sample_ok
            [NewSample (Some ten); CallPlay; Elapse 3 1]) as H
    by (repeat constructor).
  apply (tick_publishes_fraction running false _ 1%nat (Some ten) H).
  - reflexivity.
  - vm_compute. left. reflexivity.
Defined.

(** ** [formatTime]: minutes and seconds *)

Lemma Qfloor_unique (x : Q) (z : Z) :
  inject_Z z <= x -> x < inject_Z (z + 1) -> Qfloor x = z.
Proof.
  intros H1 H2.
  pose proof (Qfloor_le x) as F1. pose proof (Qlt_floor x) as F2.
  assert (inject_Z (Qfloor x) < inject_Z (z + 1)) as A by lra.
  assert (inject_Z z < inject_Z (Qfloor x + 1)) as B by lra.
  rewrite <- Zlt_Qlt in A, B. lia.
Qed.

(** For a number that is not negative, [%] is the remainder of the floored
    division. *)
Lemma js_rem_nonneg (s : Q) :
  0 <= s -> js_rem s 60 = s - 60 * inject_Z (Qfloor (s / 60)).
Proof.
  intros Hs. unfold js_rem, js_trunc.
  assert (Qle_bool 0 (s / 60) = true) as ->; [|reflexivity].
  apply Qle_bool_iff. apply Qle_shift_div_l; lra.
Qed.

Lemma mins_secs_floor (s : Q) :
  0 <= s ->
  (0 <= mins_of s)%Z /\ (0 <= secs_of s < 60)%Z /\
  (60 * mins_of s + secs_of s = Qfloor s)%Z.
Proof.
  intros Hs. unfold mins_of, secs_of. rewrite js_rem_nonneg by exact Hs.
  set (m := Qfloor (s / 60)).
  pose proof (Qfloor_le (s / 60)) as F1. pose proof (Qlt_floor (s / 60)) as F2.
  fold m in F1, F2. rewrite inject_Z_plus in F2.
  assert (s == 60 * (s / 60)) as Es by field.
  set (q := s / 60) in *.
  pose proof (Qfloor_le s) as G1. pose proof (Qlt_floor s) as G2.
  rewrite inject_Z_plus in G2.
  change (inject_Z 1) with 1 in *.
  assert (Qfloor (s - 60 * inject_Z m) = (Qfloor s - 60 * m)%Z) as E.
  { apply Qfloor_unique.
    - unfold Zminus. rewrite inject_Z_plus, inject_Z_opp, inject_Z_mult.
      change (inject_Z 60) with 60. lra.
    - unfold Zminus. rewrite !inject_Z_plus, inject_Z_opp, inject_Z_mult.
      change (inject_Z 60) with 60. change (inject_Z 1) with 1. lra. }
  rewrite E.
  change (inject_Z 1) with 1 in *.
  assert (inject_Z 0 < inject_Z (m + 1)) as M0.
  { rewrite inject_Z_plus. change (inject_Z 0) with 0.
    change (inject_Z 1) with 1. lra. }
  assert (inject_Z (60 * m) < inject_Z (Qfloor s + 1)) as A.
  { rewrite inject_Z_plus, inject_Z_mult. change (inject_Z 60) with 60.
    change (inject_Z 1) with 1. lra. }
  assert (inject_Z (Qfloor s) < inject_Z (60 * m + 60)) as B.
  { rewrite inject_Z_plus, inject_Z_mult. change (inject_Z 60) with 60. lra. }
  rewrite <- Zlt_Qlt in M0, A, B. lia.
Qed.

Lemma field_value_toString (z : Z) : field_value (toString z) = Some z.
Proof.
  unfold field_value, toString. rewrite NilZero.isi.
  - cbn. now rewrite DecimalZ.of_to.
  - destruct z; cbn; try discriminate.
    intros [= E]. now apply DecimalPos.Unsigned.to_uint_nonnil in E.
  - destruct z; cbn; try discriminate.
    intros [= E]. now apply DecimalPos.Unsigned.to_uint_nonnil in E.
Qed.

Lemma one_digit_small (d : uint) :
  (String.length (NilEmpty.string_of_uint d) <= 1)%nat -> (Pos.of_uint d <= 9)%N.
Proof.
  destruct d as [|d|d|d|d|d|d|d|d|d|d]; cbn; try lia;
    destruct d; cbn; intros H; try lia.
Qed.

Lemma toString_length (z : Z) :
  (10 <= z)%Z -> (2 <= String.length (toString z))%nat.
Proof.
  intros Hz. destruct z as [|p|p]; try lia.
  unfold toString; cbn.
  destruct (Nat.le_gt_cases 2 (String.length (NilZero.string_of_uint (Pos.to_uint p))))
    as [L|L]; [exact L|exfalso].
  pose proof (DecimalPos.Unsigned.of_to p) as E.
  pose proof (DecimalPos.Unsigned.to_uint_nonnil p) as Nn.
  unfold NilZero.string_of_uint in L.
  assert (String.length (NilEmpty.string_of_uint (Pos.to_uint p)) <= 1)%nat as L'.
  { destruct (Pos.to_uint p); [contradiction|..]; lia. }
  apply one_digit_small in L'. rewrite E in L'. lia.
Qed.

Lemma padStart_small (z : Z) :
  (0 <= z < 10)%Z ->
  padStart 2 "0" (toString z) = String "0" (toString z) /\
  String.length (toString z) = 1%nat /\
  field_value (padStart 2 "0" (toString z)) = Some z.
Proof.
  intros Hz.
  assert (z = 0 \/ z = 1 \/ z = 2 \/ z = 3 \/ z = 4 \/ z = 5 \/ z = 6 \/
          z = 7 \/ z = 8 \/ z = 9)%Z as H by lia.
  repeat (destruct H as [->|H]; [repeat split|]). subst z. repeat split.
Qed.

Lemma padStart_large (z : Z) :
  (10 <= z)%Z -> padStart 2 "0" (toString z) = toString z.
Proof.
  intros Hz. pose proof (toString_length z Hz) as L. unfold padStart.
  replace (2 - String.length (toString z))%nat with 0%nat by lia. reflexivity.
Qed.

Lemma padStart_field (z : Z) :
  (0 <= z)%Z ->
  field_value (padStart 2 "0" (toString z)) = Some z /\
  (2 <= String.length (padStart 2 "0" (toString z)))%nat.
Proof.
  intros Hz. destruct (Z.lt_ge_cases z 10) as [L|L].
  - destruct (padStart_small z (conj Hz L)) as (E & Ln & F).
    split; [exact F|]. rewrite E. cbn. lia.
  - rewrite padStart_large by exact L.
    split; [apply field_value_toString|now apply toString_length].
Qed.

(** C9.  For [s >= 0], [formatTime s] prints [floor (s/60)], a colon and
    [floor (s mod 60)]; the two fields read back as these numbers; the
    seconds lie in 0..59 and, with the minutes, make up [floor s], so that
    the fraction of a second is dropped and never rounded up: 59.9 seconds
    print as 00:59. *)
Theorem formatTime_floors (s : Q) :
  0 <= s ->
  let m := Qfloor (s / 60) in
  let r := Qfloor (floor_mod s 60) in
  formatTime s = mmss s /\
  field_value (padStart 2 "0" (toString m)) = Some m /\
  field_value (padStart 2 "0" (toString r)) = Some r /\
  (0 <= r < 60)%Z /\ (60 * m + r = Qfloor s)%Z /\
  inject_Z (60 * m + r) <= s < inject_Z (60 * m + r) + 1 /\
  formatTime (599 # 10) = "00:59"%string.
Proof.
  intros Hs. cbv zeta.
  destruct (mins_secs_floor s Hs) as (Hm & Hr & E).
  unfold mins_of, secs_of in *. rewrite js_rem_nonneg in * by exact Hs.
  fold (floor_mod s 60) in *.
  split; [unfold formatTime, mmss; now rewrite js_rem_nonneg by exact Hs|].
  split; [now apply padStart_field|]. split; [apply padStart_field; lia|].
  split; [exact Hr|]. split; [exact E|]. split; [|reflexivity].
  rewrite E. split; [apply Qfloor_le|].
  pose proof (Qlt_floor s) as H. rewrite inject_Z_plus in H. exact H.
Qed.

Lemma formatTime_floors_witness :
  0 <= 599 # 10 /\ formatTime (599 # 10) = mmss (599 # 10) /\
  mmss (599 # 10) = "00:59"%string.
Proof.
  assert (0 <= 599 # 10) as H by discriminate.
  split; [exact H|]. split; [|reflexivity].
  apply (formatTime_floors (599 # 10) H).
Defined.

(** C10.  From one hour on the minutes are not folded into hours: the
    minutes field is the decimal numeral of [floor (s/60)], at least 60,
    printed in full; and a field is padded with a zero on the left exactly
    when its number is below ten, so both fields have two characters at
    least: 3661 seconds print as 61:01. *)
Theorem formatTime_no_hours (s : Q) :
  3600 <= s ->
  let m := Qfloor (s / 60) in
  let r := Qfloor (js_rem s 60) in
  (60 <= m)%Z /\ (0 <= r < 60)%Z /\
  formatTime s
  = String.append (toString m) (String.append ":" (padStart 2 "0" (toString r))) /\
  field_value (toString m) = Some m /\
  (2 <= String.length (toString m))%nat /\
  (2 <= String.length (padStart 2 "0" (toString r)))%nat /\
  (forall z, (0 <= z)%Z ->
     padStart 2 "0" (toString z)
     = if (z <? 10)%Z then String "0" (toString z) else toString z) /\
  formatTime 3661 = "61:01"%string.
Proof.
  intros Hs. cbv zeta.
  assert (0 <= s) as H0 by lra.
  destruct (mins_secs_floor s H0) as (Hm & Hr & E).
  unfold mins_of, secs_of in *.
  assert (60 <= Qfloor (s / 60))%Z as H60.
  { assert (inject_Z 60 <= s / 60) as H
      by (apply Qle_shift_div_l; [reflexivity|];
          change (inject_Z 60) with 60; lra).
    apply Qfloor_resp_le in H. now rewrite Qfloor_Z in H. }
  split; [exact H60|]. split; [exact Hr|].
  split; [unfold formatTime; now rewrite padStart_large by lia|].
  split; [apply field_value_toString|].
  split; [apply toString_length; lia|].
  split; [apply padStart_field; lia|]. split; [|reflexivity].
  intros z Hz. destruct (z <? 10)%Z eqn:L.
  - apply Z.ltb_lt in L. now apply padStart_small.
  - apply Z.ltb_ge in L. now apply padStart_large.
Qed.

Lemma formatTime_no_hours_witness :
  3600 <= 3661 /\ (60 <= Qfloor (3661 / 60))%Z /\
  formatTime 3661 = "61:01"%string.
Proof.
  assert (3600 <= 3661) as H by discriminate.
  split; [exact H|]. split; [|reflexivity].
  apply (formatTime_no_hours 3661 H).
Defined.

(** ** Sessions reached from the mounted component *)

Lemma stopAudio_session (strict : bool) (p : Player) :
  session_inv strict p -> session_inv strict (exec stopAudio p).
Proof.
  intros (Hc & Hs & Hp & Hi & Hh).
  unfold exec; rewrite stopAudio_eq. unfold session_inv, clock; cbn.
  split; [exact Hc|]. split; [exact Hs|]. split; [exact Hp|].
  split; [split; [discriminate|congruence]|]. discriminate.
Qed.

Lemma session_inv_ext (strict : bool) (p q : Player) :
  audioContextRef q = audioContextRef p -> startTimeRef q = startTimeRef p ->
  pauseTimeRef q = pauseTimeRef p -> isPlaying q = isPlaying p ->
  sourceNodeRef q = sourceNodeRef p -> nodes q = nodes p ->
  session_inv strict p -> session_inv strict q.
Proof.
  unfold session_inv, clock. intros -> -> -> -> -> ->. auto.
Qed.

Lemma updateProgress_session (strict : bool) (c : option AudioBuffer) (p : Player) :
  session_inv strict p -> session_inv strict (exec (updateProgress c) p).
Proof.
  intros H. unfold exec. rewrite updateProgress_eq.
  destruct (audioContextRef p) as [ctx|] eqn:Ec; [|exact H].
  destruct (sourceNodeRef p) as [id|] eqn:Er; [|exact H].
  destruct c as [buf|]; [|exact H].
  destruct (Qle_bool 100 (percent ctx buf p)).
  - assert (session_inv strict (with_progress 100 p)) as H1.
    { revert H. apply session_inv_ext; reflexivity. }
    apply stopAudio_session in H1.
    destruct H1 as (Hc & Hs & Hp & Hi & Hh).
    unfold session_inv, clock in *; cbn in *.
    split; [exact Hc|]. split; [exact Hs|]. split; [apply Qle_refl|].
    split; assumption.
  - revert H. apply session_inv_ext; reflexivity.
Qed.

Lemma started_state_session (strict : bool) (b : AudioBuffer)
      (ctx : AudioContext) (p : Player) :
  audioContextRef p = Some ctx -> strictStop ctx = strict ->
  0 <= pauseTimeRef p ->
  session_inv strict (started_state b ctx p).
Proof.
  intros Ec Es Hp. unfold session_inv, started_state, clock; cbn. rewrite Ec.
  split; [exists ctx; auto|]. split; [lra|]. split; [exact Hp|].
  split; [split; [discriminate|reflexivity]|].
  intros id [= <-]. rewrite nth_error_app_last.
  eexists; split; [reflexivity|]. cbn. repeat split. discriminate.
Qed.

Lemma playAudio_resumed_session (strict : bool) (b : AudioBuffer) (p : Player) :
  session_inv strict p -> session_inv strict (exec (playAudio_resumed b) p).
Proof.
  intros H. pose proof H as (Hc & Hs & Hp & Hi & Hh).
  destruct Hc as (ctx & Ec & Est).
  rewrite playAudio_resumed_split. unfold exec, bind.
  rewrite stop_existing_eq.
  assert (forall q, audioContextRef q = Some ctx -> pauseTimeRef q = pauseTimeRef p ->
                    session_inv strict (snd (start_new b q))) as K.
  { intros q Eq Epq. rewrite start_new_eq, Eq, Epq.
    assert (Qle_bool 0 (pauseTimeRef p) = true) as -> by now apply Qle_bool_iff.
    apply updateProgress_session, started_state_session; auto. now rewrite Epq. }
  destruct (sourceNodeRef p) as [id|] eqn:Er.
  - rewrite Ec. destruct (Hh id eq_refl) as (n & En & _). rewrite En.
    destruct (node_stop ctx n) as [m|e]; [|exact H].
    now apply K.
  - now apply K.
Qed.

Lemma resume_context_session (strict : bool) (p : Player) :
  session_inv strict p -> session_inv strict (exec resume_context p).
Proof.
  intros (Hc & Hs & Hp & Hi & Hh). destruct Hc as (ctx & Ec & Est).
  unfold exec, resume_context, modify, session_inv, clock in *; cbn.
  rewrite Ec in *. cbn.
  split; [eexists; split; [reflexivity|exact Est]|]. auto.
Qed.

Lemma step_session (strict : bool) (e : Event) (p : Player) :
  session_inv strict p -> session_inv strict (step e p).
Proof.
  intros H. unfold step. destruct e; cbn [handler].
  - unfold exec, playAudio_begin, bind, gets; cbn.
    destruct (audioBuffer p) as [buf|] eqn:Eb; [|exact H].
    destruct (audioContextRef p) as [ctx|] eqn:Ec; [|exact H].
    destruct (state ctx); try (now apply playAudio_resumed_session).
    revert H. apply session_inv_ext; reflexivity.
  - unfold exec, resumeResolved, bind, gets; cbn -[playAudio_resumed].
    destruct (resumes p) as [|buf rest] eqn:Ers; [exact H|].
    apply playAudio_resumed_session.
    apply (resume_context_session strict (with_resumes rest p)).
    revert H. apply session_inv_ext; reflexivity.
  - unfold exec. rewrite pauseAudio_eq.
    destruct (audioContextRef p) as [ctx|] eqn:Ec; [|exact H]. cbv zeta.
    assert (session_inv strict
              (with_pauseTimeRef (currentTime ctx - startTimeRef p) p)) as H1.
    { destruct H as (Hc & Hs & Hp & Hi & Hh).
      unfold session_inv, clock in *; cbn in *. rewrite Ec in *.
      split; [exact Hc|]. split; [exact Hs|]. split; [lra|].
      split; assumption. }
    apply stopAudio_session in H1.
    destruct (audioBuffer p); [|exact H1].
    revert H1. apply session_inv_ext; reflexivity.
  - unfold exec. rewrite resetAudio_eq.
    apply stopAudio_session in H.
    destruct H as (Hc & Hs & Hp & Hi & Hh).
    unfold session_inv, clock in *; cbn in *.
    split; [exact Hc|]. split; [exact Hs|]. split; [apply Qle_refl|].
    split; assumption.
  - now apply stopAudio_session.
  - unfold exec, fireFrame, bind, gets; cbn.
    destruct (find _ (frames p)) as [[h' c]|] eqn:Ef; [|exact H].
    unfold modify; cbn. apply updateProgress_session.
    revert H. apply session_inv_ext; reflexivity.
  - unfold exec, advanceClock, modify; cbn.
    destruct (audioContextRef p) as [ctx|] eqn:Ec; [|exact H].
    destruct (state ctx); try exact H.
    pose proof (elapse_nonneg num den) as Hn.
    destruct H as (Hc & Hs & Hp & Hi & Hh).
    unfold session_inv, clock in *; cbn in *. rewrite Ec in *.
    destruct Hc as (ctx' & [= <-] & Est).
    split; [eexists; split; [reflexivity|exact Est]|]. split; [lra|].
    split; [exact Hp|]. split; assumption.
  - unfold exec. rewrite onSampleReplaced_eq.
    assert (session_inv strict (with_audioBuffer b p)) as H1.
    { revert H. apply session_inv_ext; reflexivity. }
    apply stopAudio_session in H1.
    destruct H1 as (Hc & Hs & Hp & Hi & Hh).
    unfold session_inv, clock in *; cbn in *.
    split; [exact Hc|]. split; [exact Hs|]. split; [apply Qle_refl|].
    split; assumption.
Qed.

Lemma mounted_session (s : AudioContextState) (strict : bool) :
  session_inv strict (mounted s strict).
Proof.
  unfold session_inv, clock; cbn.
  split; [eexists; split; reflexivity|]. split; [apply Qle_refl|].
  split; [apply Qle_refl|]. split; [split; [discriminate|congruence]|].
  discriminate.
Qed.

Lemma run_session (strict : bool) (es : list Event) (p : Player) :
  session_inv strict p -> session_inv strict (run es p).
Proof.
  revert p. induction es as [|e es IH]; intros p H; cbn; [exact H|].
  apply IH, step_session, H.
Qed.

(** X1.  In every state reached from the mounted component [isPlaying] is
    true exactly when [sourceNodeRef] holds a node, and that node has been
    started, is connected and has not been stopped; when [isPlaying] is
    false no node sounds, now or later. *)
Theorem playing_iff_node_held (s : AudioContextState) (strict : bool)
        (es : list Event) :
  let p := run es (mounted s strict) in
  (isPlaying p = true <->
   exists id n, sourceNodeRef p = Some id /\ nth_error (nodes p) id = Some n /\
                started n <> None /\ stopped n = false /\ connected n = true) /\
  (isPlaying p = false ->
   forall i n t, clock p <= t -> nth_error (nodes p) i = Some n ->
                 audible t n = false).
Proof.
  intros p.
  assert (session_inv strict p) as (Hc & Hs & Hp & Hi & Hh)
    by apply run_session, mounted_session.
  assert (engine_inv p) as (_ & He) by apply run_inv, mounted_inv.
  split; [split|].
  - intros A. apply Hi in A.
    destruct (sourceNodeRef p) as [id|] eqn:Er; [|congruence].
    destruct (Hh id eq_refl) as (n & Hn). exists id, n. auto.
  - intros (id & n & Er & _). apply Hi. congruence.
  - intros A i n t Ht Hn. destruct (audible t n) eqn:Au; [exfalso|reflexivity].
    assert (isPlaying p = true) as X
      by (apply Hi; rewrite (He i n t Ht Hn Au); discriminate).
    congruence.
Qed.





(** X3.  [playAudio] calls [stop()] outside any [try]: where the held
    node's [stop()] raises, [playAudio] rejects with that
    [InvalidStateError] and starts nothing (the node store, the refs and
    [isPlaying] are as before), while [stopAudio] in the same state
    completes. *)
Theorem play_rejects_where_stop_raises (p : Player) (b : AudioBuffer) :
  audioBuffer p = Some b -> stop_raises p ->
  let q := exec playAudio p in
  fst (playAudio p) = Throw InvalidStateError /\
  nodes q = nodes p /\ sourceNodeRef q = sourceNodeRef p /\
  isPlaying q = isPlaying p /\ startTimeRef q = startTimeRef p /\
  pauseTimeRef q = pauseTimeRef p /\ frames q = frames p /\
  completes stopAudio p = true.
Proof.
  intros Eb (id & ctx & n & e & Er & Ec & En & Es). cbv zeta. unfold exec.
  rewrite playAudio_eq, Eb, Ec, playAudio_resumed_split. unfold bind.
  destruct (woken_fields p) as (Wb & Wr & Wp & Wn & Wf & Wx & Ws).
  assert (exists ctx', audioContextRef (woken p) = Some ctx') as (ctx' & Ec').
  { unfold woken. rewrite Ec. destruct (state ctx); cbn; rewrite ?Ec; eauto. }
  rewrite stop_existing_eq, Wr, Er, Ec', Wn, En.
  rewrite (node_stop_woken p ctx ctx' n Ec Ec'), Es. cbn.
  assert (e = InvalidStateError) as ->.
  { revert Es. unfold node_stop. destruct (started n); [|congruence].
    destruct (strictStop ctx && _); congruence. }
  split; [reflexivity|]. rewrite ?Wn, ?Wr, ?Wp, ?Wf.
  split; [reflexivity|]. split; [congruence|].
  split; [unfold woken; rewrite Ec; now destruct (state ctx)|].
  split; [unfold woken; rewrite Ec; now destruct (state ctx)|].
  do 2 (split; [reflexivity|]).
  unfold completes. now rewrite stopAudio_eq.
Qed.

Lemma play_rejects_where_stop_raises_witness :
  fst (playAudio finished_strict) = Throw InvalidStateError /\
  completes stopAudio finished_strict = true.
Proof.
  destruct (play_rejects_where_stop_raises finished_strict ten eq_refl
              finished_strict_stop_raises) as (A & _ & _ & _ & _ & _ & _ & B).
  split; [exact A|exact B].
Defined.

Lemma progress_after_tick (b : AudioBuffer) (ctx : AudioContext) (id : nat)
      (p : Player) :
  audioContextRef p = Some ctx -> sourceNodeRef p = Some id ->
  0 < duration b -> startTimeRef p <= currentTime ctx ->
  progress_inv (exec (updateProgress (Some b)) p).
Proof.
  intros Ec Er Hd Hs. unfold exec. rewrite updateProgress_eq, Ec, Er.
  destruct (Qle_bool 100 (percent ctx b p)) eqn:E.
  - unfold exec. rewrite stopAudio_eq. unfold progress_inv; cbn.
    split; discriminate.
  - unfold progress_inv; cbn. split.
    + unfold percent.
      assert (0 <= (currentTime ctx - startTimeRef p) / duration b) as H
        by (apply Qle_shift_div_l; lra).
      set (f := (currentTime ctx - startTimeRef p) / duration b) in *. lra.
    + intros _. destruct (Qlt_le_dec (percent ctx b p) 100) as [L|L]; [exact L|].
      apply Qle_bool_iff in L. congruence.
Qed.

Lemma progress_inv_ext (p q : Player) :
  progress q = progress p -> (isPlaying q = true -> isPlaying p = true) ->
  progress_inv p -> progress_inv q.
Proof. unfold progress_inv. intros -> Hi [H0 H1]. auto. Qed.

Lemma updateProgress_progress (c : option AudioBuffer) (p : Player) :
  (forall b, c = Some b -> 0 < duration b) ->
  timing_inv p -> progress_inv p -> progress_inv (exec (updateProgress c) p).
Proof.
  intros Hcap (Hc & Hs & _) H.
  destruct (audioContextRef p) as [ctx|] eqn:Ec;
    [|unfold exec; rewrite updateProgress_eq, Ec; exact H].
  destruct (sourceNodeRef p) as [id|] eqn:Er;
    [|unfold exec; rewrite updateProgress_eq, Ec, Er; exact H].
  destruct c as [b|];
    [|unfold exec; rewrite updateProgress_eq, Ec, Er; exact H].
  apply (progress_after_tick b ctx id); auto.
  unfold clock in Hs. now rewrite Ec in Hs.
Qed.

Lemma playAudio_resumed_progress (b : AudioBuffer) (p : Player) :
  0 < duration b -> timing_inv p -> progress_inv p ->
  progress_inv (exec (playAudio_resumed b) p).
Proof.
  intros Hd (Hc & Hs & Hp & _) H. destruct Hc as (ctx & Ec).
  rewrite playAudio_resumed_split. unfold exec, bind.
  rewrite stop_existing_eq.
  assert (forall q, audioContextRef q = Some ctx ->
                    pauseTimeRef q = pauseTimeRef p -> progress_inv q ->
                    progress_inv (snd (start_new b q))) as K.
  { intros q Eq Epq Hq. rewrite start_new_eq, Eq, Epq.
    destruct (Qle_bool 0 (pauseTimeRef p)).
    - apply (progress_after_tick b ctx (List.length (nodes q))); auto.
      cbn. rewrite Epq. lra.
    - revert Hq. apply progress_inv_ext; cbn; auto. }
  destruct (sourceNodeRef p) as [id|] eqn:Er.
  - rewrite Ec. destruct (nth_error (nodes p) id) as [n|]; [|exact H].
    destruct (node_stop ctx n) as [m|e]; [|exact H].
    apply K; auto.
  - now apply K.
Qed.

Lemma stopAudio_progress (p : Player) :
  0 <= progress p -> progress_inv (exec stopAudio p).
Proof.
  intros H. unfold exec. rewrite stopAudio_eq. unfold progress_inv; cbn.
  split; [exact H|discriminate].
Qed.

Lemma step_progress (e : Event) (p : Player) :
  sample_ok e -> timing_inv p -> progress_inv p -> progress_inv (step e p).
Proof.
  intros He T H. unfold step. destruct e; cbn [handler].
  - unfold exec, playAudio_begin, bind, gets; cbn.
    destruct (audioBuffer p) as [buf|] eqn:Eb; [|exact H].
    destruct (audioContextRef p) as [ctx|] eqn:Ec; [|exact H].
    assert (0 < duration buf) as Hd
      by (destruct T as (_ & _ & _ & _ & _ & Hb & _); now apply Hb).
    destruct (state ctx); try (now apply playAudio_resumed_progress).
    revert H. apply progress_inv_ext; cbn; auto.
  - unfold exec, resumeResolved, bind, gets; cbn -[playAudio_resumed].
    destruct (resumes p) as [|buf rest] eqn:Ers; [exact H|].
    assert (0 < duration buf) as Hd.
    { destruct T as (_ & _ & _ & _ & _ & _ & Hr). apply Hr.
      rewrite Ers. now left. }
    apply playAudio_resumed_progress; [exact Hd| |].
    + destruct T as (Hc & Hs & Hp & Hi & Hf & Hb & Hr).
      unfold timing_inv, clock in *; cbn in *.
      destruct Hc as (ctx & Ec). rewrite Ec in *. cbn.
      rewrite Ers in Hr.
      split; [eexists; reflexivity|]. repeat split; auto.
      intros b0 Hin. apply Hr. now right.
    + revert H. apply progress_inv_ext; cbn.
      * now destruct (audioContextRef p).
      * now destruct (audioContextRef p).
  - unfold exec. rewrite pauseAudio_eq.
    destruct (audioContextRef p) as [ctx|] eqn:Ec; [|exact H]. cbv zeta.
    unfold exec. rewrite stopAudio_eq.
    destruct T as (Hc & Hs & Hp & Hi & Hf & Hb & Hr).
    unfold clock in Hs. rewrite Ec in Hs.
    destruct (audioBuffer p) as [buf|] eqn:Eb; unfold progress_inv; cbn.
    + split; [|discriminate].
      assert (0 <= (currentTime ctx - startTimeRef p) / duration buf) as X
        by (apply Qle_shift_div_l; [now apply Hb|lra]).
      set (f := (currentTime ctx - startTimeRef p) / duration buf) in *. lra.
    + split; [apply H|discriminate].
  - unfold exec. rewrite resetAudio_eq. unfold exec. rewrite stopAudio_eq.
    unfold progress_inv; cbn. split; discriminate.
  - apply stopAudio_progress, H.
  - unfold exec, fireFrame, bind, gets; cbn.
    destruct (find _ (frames p)) as [[h' c]|] eqn:Ef; [|exact H].
    unfold modify; cbn. apply find_some in Ef as [Hin _].
    destruct T as (Hc & Hs & Hp & Hi & Hf & Hb & Hr).
    apply updateProgress_progress.
    + intros b ->. destruct (Hf h' _ Hin) as (b' & [= <-] & Hd). exact Hd.
    + unfold timing_inv, clock in *; cbn in *. repeat split; auto.
      intros h0 c0 Hin0. apply In_drop_frame in Hin0. eauto.
    + revert H. apply progress_inv_ext; cbn; auto.
  - unfold exec, advanceClock, modify; cbn.
    destruct (audioContextRef p) as [ctx|] eqn:Ec; [|exact H].
    destruct (state ctx); exact H.
  - unfold exec. rewrite onSampleReplaced_eq. unfold exec. rewrite stopAudio_eq.
    unfold progress_inv; cbn. split; discriminate.
Qed.

Lemma run_progress (es : list Event) (p : Player) :
  Forall sample_ok es -> timing_inv p -> progress_inv p ->
  progress_inv (run es p).
Proof.
  intros Hes. revert p. induction Hes as [|e es He _ IH]; intros p T H; cbn.
  - exact H.
  - apply IH; [now apply step_timing|now apply step_progress].
Qed.

(** X4.  Given samples of positive duration, the progress bar of a session
    reached from the mounted component is never negative, and while the
    session is active it is short of full: the value a tick left there. *)
Theorem bar_within_bounds_while_playing (s : AudioContextState) (strict : bool)
        (es : list Event) :
  Forall sample_ok es ->
  let p := run es (mounted s strict) in
  0 <= progressFraction p /\ (isPlaying p = true -> progressFraction p < 1).
Proof.
  intros Hes p.
  assert (progress_inv p) as [H0 H1].
  { apply run_progress; [exact Hes|apply mounted_timing|].
    split; [apply Qle_refl|discriminate]. }
  unfold progressFraction. split.
  - apply Qle_shift_div_l; [reflexivity|lra].
  - intros A. apply Qlt_shift_div_r; [reflexivity|]. specialize (H1 A). lra.
Qed.

Lemma bar_within_bounds_while_playing_witness :
  0 <= progressFraction active_at_3 /\
  (isPlaying active_at_3 = true -> progressFraction active_at_3 < 1).
Proof.
  apply (bar_within_bounds_while_playing running false
           [NewSample (Some ten); CallPlay; Elapse 3 1; Frame 1]).
  repeat constructor.
Defined.

Lemma woken_context (q : Player) (ctx : AudioContext) :
  audioContextRef q = Some ctx ->
  exists ctx', audioContextRef (woken q) = Some ctx' /\
               currentTime ctx' = currentTime ctx.
Proof.
  intros Ec. unfold woken. rewrite Ec.
  destruct (state ctx); cbn; rewrite ?Ec; eexists; split; reflexivity.
Qed.

(** X5.  [pauseAudio] does not clamp.  Called once the elapsed time has
    reached the duration but before a tick has noticed, it stores an offset
    at or past the end and publishes a fraction of 1 or more; the next
    [playAudio] then starts a node there, has its own first tick find the
    playback complete, stops that node and leaves the session inactive at
    offset 0 with the bar at 100. *)
Theorem pause_past_the_end (p : Player) (b : AudioBuffer) (ctx : AudioContext) :
  audioBuffer p = Some b -> audioContextRef p = Some ctx ->
  0 < duration b -> duration b <= currentTime ctx - startTimeRef p ->
  let q := exec pauseAudio p in
  let r := exec playAudio q in
  pauseTimeRef q = currentTime ctx - startTimeRef p /\
  1 <= progressFraction q /\
  (duration b < currentTime ctx - startTimeRef p -> 1 < progressFraction q) /\
  completes playAudio q = true /\
  isPlaying r = false /\ sourceNodeRef r = None /\
  pauseTimeRef r = 0 /\ progress r = 100 /\
  List.length (nodes r) = S (List.length (nodes p)) /\
  (forall i n t, clock r <= t -> nth_error (nodes r) i = Some n ->
                 (List.length (nodes p) <= i)%nat -> audible t n = false).
Proof.
  intros Eb Ec Hd He. cbv zeta.
  set (e := currentTime ctx - startTimeRef p) in *.
  assert (exec pauseAudio p
          = with_progress (e / duration b * 100)
              (exec stopAudio (with_pauseTimeRef e p))) as Eq.
  { unfold exec. now rewrite pauseAudio_eq, Ec, Eb. }
  rewrite Eq. unfold exec at 1 2 3. rewrite stopAudio_eq.
  cbn [pauseTimeRef with_progress with_isPlaying with_frames with_sourceNodeRef
       with_nodes with_pauseTimeRef snd].
  split; [reflexivity|].
  assert (1 <= e / duration b) as F1 by (apply Qle_shift_div_l; lra).
  split; [unfold progressFraction; cbn;
          set (f := e / duration b) in *; field_simplify; lra|].
  split.
  { intros L. assert (1 < e / duration b) as F2 by (apply Qlt_shift_div_l; lra).
    unfold progressFraction; cbn. set (f := e / duration b) in *.
    field_simplify. lra. }
  set (q := with_progress (e / duration b * 100)
              (exec stopAudio (with_pauseTimeRef e p))).
  assert (audioBuffer q = Some b) as Qb
    by (unfold q, exec; rewrite stopAudio_eq; exact Eb).
  assert (audioContextRef q = Some ctx) as Qc
    by (unfold q, exec; rewrite stopAudio_eq; exact Ec).
  assert (sourceNodeRef q = None) as Qr
    by (unfold q, exec; now rewrite stopAudio_eq).
  assert (pauseTimeRef q = e) as Qp
    by (unfold q, exec; now rewrite stopAudio_eq).
  assert (List.length (nodes q) = List.length (nodes p)) as Qn.
  { unfold q, exec; rewrite stopAudio_eq; cbn. unfold released_nodes; cbn.
    destruct (sourceNodeRef p); [|reflexivity]. rewrite Ec.
    destruct (nth_error (nodes p) n); [apply length_set_nth|reflexivity]. }
  clearbody q. unfold completes, exec.
  rewrite playAudio_eq, Qb, Qc, playAudio_resumed_split. unfold bind.
  destruct (woken_fields q) as (Wb & Wr & Wp & Wn & Wf & Wx & Ws).
  destruct (woken_context q ctx Qc) as (ctx' & Ec' & Et).
  rewrite stop_existing_eq, Wr, Qr. rewrite start_new_eq, Ec', Wp, Qp.
  assert (Qle_bool 0 e = true) as -> by (apply Qle_bool_iff; lra).
  rewrite updateProgress_eq.
  cbn [audioContextRef sourceNodeRef started_state with_isPlaying
       with_sourceNodeRef with_nodes with_startTimeRef].
  rewrite Ec'.
  assert (Qle_bool 100 (percent ctx' b (started_state b ctx' (woken q))) = true)
    as ->.
  { apply Qle_bool_iff.
    rewrite (percent_at_start ctx' b e) by (cbn; now rewrite Wp, Qp).
    set (f := e / duration b) in *. lra. }
  unfold exec. rewrite stopAudio_eq. cbn.
  split; [reflexivity|]. do 4 (split; [reflexivity|]).
  unfold released_nodes; cbn. rewrite Ec', nth_error_app_last, Wn.
  split; [rewrite length_set_nth, length_app, Qn; cbn; lia|].
  intros i n t Ht Hn Hi. unfold clock in Ht; cbn in Ht. rewrite Ec' in Ht.
  rewrite nth_error_set_nth in Hn.
  destruct (Nat.eqb (List.length (nodes q)) i) eqn:Ei.
  - rewrite nth_error_app_last in Hn. injection Hn as <-.
    apply silenced_silent. exact Ht.
  - apply Nat.eqb_neq in Ei.
    assert (nth_error (nodes q ++ [new_node b (Some (currentTime ctx', e))]) i
            = None) as X
      by (apply nth_error_None; rewrite length_app; cbn; lia).
    congruence.
Qed.

Lemma pause_past_the_end_witness :
  1 < progressFraction (exec pauseAudio overdue) /\
  isPlaying (exec playAudio (exec pauseAudio overdue)) = false /\
  pauseTimeRef (exec playAudio (exec pauseAudio overdue)) = 0.
Proof.
  assert (0 < duration ten) as H1 by reflexivity.
  assert (duration ten
          <= currentTime
               {| currentTime := 0 + 12; state := running; strictStop := false |}
             - startTimeRef overdue) as H2 by (vm_compute; discriminate).
  destruct (pause_past_the_end overdue ten _ eq_refl eq_refl H1 H2)
    as (_ & _ & A & _ & B & _ & C & _).
  split; [apply A; vm_compute; reflexivity|]. split; [exact B|exact C].
Defined.

(** X6.  A [playAudio] parked on [resume()] is not called off by a change
    of sample: the effect resets the session but leaves the parked call,
    and when [resume()] resolves the call starts a node, at offset 0, for
    the sample it captured when it was made, whatever sample (or none) the
    component has by then; the loop it schedules is for that old sample
    too. *)
Theorem parked_play_outlives_sample (p : Player) (b1 : AudioBuffer)
        (b2 : option AudioBuffer) (ctx : AudioContext) :
  audioBuffer p = Some b1 -> audioContextRef p = Some ctx ->
  state ctx = suspended -> resumes p = [] ->
  let q := run [CallPlay; NewSample b2; ResumeResolved] p in
  audioBuffer q = b2 /\ isPlaying q = true /\
  currentNode q = Some (new_node b1 (Some (currentTime ctx, 0))) /\
  pauseTimeRef q = 0 /\ resumes q = [] /\
  In (animationFrameRef q, Some b1) (frames q).
Proof.
  intros Eb Ec Es Er. cbv zeta. cbn [run fold_left].
  assert (step CallPlay p = with_resumes [b1] p) as ->.
  { unfold step, exec; cbn [handler].
    unfold playAudio_begin, bind, gets, modify; cbn.
    now rewrite Eb, Ec, Es, Er. }
  set (q := step (NewSample b2) (with_resumes [b1] p)).
  assert (resumes q = [b1] /\ audioContextRef q = Some ctx /\
          sourceNodeRef q = None /\ pauseTimeRef q = 0 /\ audioBuffer q = b2)
    as (Qs & Qc & Qr & Qp & Qb).
  { unfold q, step, exec; cbn [handler]. rewrite onSampleReplaced_eq.
    unfold exec. rewrite stopAudio_eq. cbn. repeat split; assumption. }
  clearbody q.
  unfold step, exec. cbn [handler].
  unfold resumeResolved, bind, gets. rewrite Qs.
  cbn -[playAudio_resumed].
  rewrite Qc. rewrite playAudio_resumed_split. unfold bind.
  rewrite stop_existing_eq. cbn -[start_new]. rewrite Qr.
  rewrite start_new_eq. cbn -[updateProgress]. rewrite Qp.
  change (Qle_bool 0 0) with true. cbv iota.
  rewrite updateProgress_eq. cbn -[percent].
  rewrite Qle_bool_false; cycle 1.
  { rewrite (percent_at_start _ b1 0) by (cbn; now rewrite Qp).
    assert (0 / duration b1 * 100 == 0) as -> by (unfold Qdiv; ring).
    reflexivity. }
  cbn -[percent]. rewrite ?Qp.
  split; [exact Qb|]. split; [reflexivity|]. split.
  - unfold currentNode; cbn. now rewrite nth_error_app_last, ?Qp.
  - split; [reflexivity|]. split; [reflexivity|].
    apply in_or_app. right. now left.
Qed.

Lemma parked_play_outlives_sample_witness :
  audioBuffer
    (run [CallPlay; NewSample None; ResumeResolved]
       (run [NewSample (Some ten)] (mounted suspended false))) = None /\
  isPlaying
    (run [CallPlay; NewSample None; ResumeResolved]
       (run [NewSample (Some ten)] (mounted suspended false))) = true.
Proof.
  destruct (parked_play_outlives_sample
              (run [NewSample (Some ten)] (mounted suspended false)) ten None
              {| currentTime := 0; state := suspended; strictStop := false |}
              eq_refl eq_refl eq_refl eq_refl) as (A & B & _).
  split; [exact A|exact B].
Defined.

(** X7.  [stopAudio] on its own, which is what the Edit button calls, does
    not record where the playback was: it leaves [pauseTimeRef], the clock
    origin and the bar as they were, so the [playAudio] that follows starts
    at the offset stored before, not at the point of the stop. *)
Theorem stop_forgets_the_position (p : Player) (b : AudioBuffer)
        (ctx : AudioContext) :
  audioBuffer p = Some b -> audioContextRef p = Some ctx ->
  0 <= pauseTimeRef p -> pauseTimeRef p < duration b ->
  let q := exec stopAudio p in
  pauseTimeRef q = pauseTimeRef p /\ startTimeRef q = startTimeRef p /\
  progress q = progress p /\ isPlaying q = false /\
  plays_from b (pauseTimeRef p) q (exec playAudio q) /\
  position_is (exec playAudio q) (pauseTimeRef p).
Proof.
  intros Eb Ec Ho Hlt. cbv zeta.
  assert (exec stopAudio p
          = with_isPlaying false
              (with_frames (released_frames p)
                 (with_sourceNodeRef None (with_nodes (released_nodes p) p))))
    as Eq by (unfold exec; now rewrite stopAudio_eq).
  rewrite Eq. set (q := with_isPlaying false _).
  do 4 (split; [reflexivity|]).
  assert (pauseTimeRef q / duration b * 100 < 100) as Hp.
  { assert (pauseTimeRef q / duration b < 1) as H
      by (apply Qlt_shift_div_r; cbn; lra).
    set (f := pauseTimeRef q / duration b) in *. lra. }
  destruct (playAudio_from_rest q b ctx Eb Ec eq_refl Ho Hp) as (_ & P & _).
  split; [exact P|]. now apply (plays_from_position b _ q).
Qed.

Lemma stop_forgets_the_position_witness :
  position_is (exec playAudio (exec stopAudio active_at_3)) 0.
Proof.
  assert (0 <= pauseTimeRef active_at_3) as H1 by (vm_compute; discriminate).
  assert (pauseTimeRef active_at_3 < duration ten) as H2
    by (vm_compute; reflexivity).
  destruct (stop_forgets_the_position active_at_3 ten _ eq_refl eq_refl H1 H2)
    as (_ & _ & _ & _ & _ & P).
  exact P.
Defined.

(** ** [formatTime]: one label per whole second *)

Lemma no_colon_uint (d : uint) : no_colon (NilEmpty.string_of_uint d) = true.
Proof. induction d; cbn; auto. Qed.

Lemma no_colon_toString (z : Z) : (0 <= z)%Z -> no_colon (toString z) = true.
Proof.
  intros Hz. destruct z as [|p|p]; [reflexivity| |lia].
  unfold toString; cbn. unfold NilZero.string_of_uint.
  pose proof (no_colon_uint (Pos.to_uint p)) as H.
  destruct (Pos.to_uint p); auto.
Qed.

Lemma no_colon_field (z : Z) :
  (0 <= z)%Z -> no_colon (padStart 2 "0" (toString z)) = true.
Proof.
  intros Hz. destruct (Z.lt_ge_cases z 10) as [L|L].
  - destruct (padStart_small z (conj Hz L)) as (-> & _). cbn.
    now apply no_colon_toString.
  - rewrite padStart_large by exact L. now apply no_colon_toString.
Qed.

(** Two strings free of colons, each followed by a colon and a rest, are
    equal only piece by piece. *)
Lemma colon_splits_once (a b x y : string) :
  no_colon a = true -> no_colon b = true ->
  String.append a (String.append ":" x) = String.append b (String.append ":" y) ->
  a = b /\ x = y.
Proof.
  revert b. induction a as [|c a IH]; intros [|d b]; cbn; intros Ha Hb E.
  - injection E as ->. auto.
  - injection E as <- _. cbn in Hb. discriminate.
  - injection E as -> _. cbn in Ha. discriminate.
  - injection E as -> E.
    apply andb_true_iff in Ha as [_ Ha]. apply andb_true_iff in Hb as [_ Hb].
    destruct (IH b Ha Hb E) as [-> ->]. auto.
Qed.

Lemma mins_secs_divmod (s : Q) :
  0 <= s ->
  mins_of s = (Qfloor s / 60)%Z /\ secs_of s = (Qfloor s mod 60)%Z.
Proof.
  intros Hs. destruct (mins_secs_floor s Hs) as (Hm & Hr & E).
  split.
  - apply (Z.div_unique _ 60 _ (secs_of s)); lia.
  - apply (Z.mod_unique _ 60 (mins_of s)); lia.
Qed.

Lemma formatTime_fields (s : Q) :
  formatTime s
  = String.append (padStart 2 "0" (toString (mins_of s)))
      (String.append ":" (padStart 2 "0" (toString (secs_of s)))).
Proof. reflexivity. Qed.

(** X8.  For times that are not negative, [formatTime] shows the whole
    second and nothing else: the minutes are [floor s div 60], the seconds
    [floor s mod 60], and two times get the same label exactly when they lie
    in the same whole second. *)
Theorem formatTime_label_iff_same_second (s t : Q) :
  0 <= s -> 0 <= t ->
  formatTime s
  = String.append (padStart 2 "0" (toString (Qfloor s / 60)))
      (String.append ":" (padStart 2 "0" (toString (Qfloor s mod 60)))) /\
  (formatTime s = formatTime t <-> Qfloor s = Qfloor t).
Proof.
  intros Hs Ht.
  destruct (mins_secs_divmod s Hs) as (Ms & Ss).
  destruct (mins_secs_divmod t Ht) as (Mt & St).
  destruct (mins_secs_floor s Hs) as (Hms & Hrs & Es).
  destruct (mins_secs_floor t Ht) as (Hmt & Hrt & Et).
  rewrite !formatTime_fields. split; [now rewrite Ms, Ss|]. split.
  - intros E. apply colon_splits_once in E as [E1 E2];
      try (apply no_colon_field; assumption).
    destruct (padStart_field (mins_of s) Hms) as (F1 & _).
    destruct (padStart_field (mins_of t) Hmt) as (F2 & _).
    destruct (padStart_field (secs_of s) (proj1 Hrs)) as (F3 & _).
    destruct (padStart_field (secs_of t) (proj1 Hrt)) as (F4 & _).
    rewrite E1 in F1. rewrite E2 in F3.
    assert (mins_of s = mins_of t) by congruence.
    assert (secs_of s = secs_of t) by congruence. lia.
  - intros E. now rewrite Ms, Ss, Mt, St, E.
Qed.

Lemma formatTime_label_iff_same_second_witness :
  formatTime (599 # 10) = formatTime 59 /\ formatTime (599 # 10) <> formatTime 60.
Proof.
  assert (0 <= 599 # 10) as H1 by discriminate.
  assert (0 <= 59) as H2 by discriminate.
  assert (0 <= 60) as H3 by discriminate.
  split.
  - apply (formatTime_label_iff_same_second (599 # 10) 59 H1 H2). reflexivity.
  - intros E. apply (formatTime_label_iff_same_second (599 # 10) 60 H1 H3) in E.
    discriminate.
Defined.
(** ** Edit mode *)

Lemma truthy_false (s : string) : truthy s = false <-> s = ""%string.
Proof.
  unfold truthy. rewrite negb_false_iff. apply String.eqb_eq.
Qed.

(** X9.  With a sample loaded, the Edit button puts the panel in edit mode,
    stops the playback without touching the stored offset and disables the
    transport buttons; the first change of the script that the parent
    passes back (a keystroke in the review box) makes the effect on
    [audioBuffer, script, allowScriptEdit] run, and as a sample is loaded it
    leaves edit mode again and re-enables the buttons. *)
Theorem edit_mode_ends_on_first_change (w : Panel) (new : string) :
  audioBuffer (player w) <> None -> new <> script w ->
  let w1 := onEdit w in
  let w2 := scriptProp new w1 in
  isEditing w1 = true /\ controlsDisabled w1 = true /\ editShown w1 = false /\
  isPlaying (player w1) = false /\
  pauseTimeRef (player w1) = pauseTimeRef (player w) /\
  isEditing w2 = false /\ controlsDisabled w2 = false /\ editShown w2 = true /\
  script w2 = new /\ player w2 = player w1.
Proof.
  intros Hb Hn. cbv zeta.
  destruct (audioBuffer (player w)) as [b|] eqn:Eb; [clear Hb|congruence].
  assert (audioBuffer (player (onEdit w)) = Some b) as Eb1.
  { unfold onEdit; cbn. unfold exec. now rewrite stopAudio_eq. }
  assert (scriptProp new (onEdit w)
          = with_isEditing false (with_script new (onEdit w))) as ->.
  { unfold scriptProp.
    destruct (String.eqb new (script (onEdit w))) eqn:E.
    - apply String.eqb_eq in E. now elim Hn.
    - unfold editModeEffect. cbn [player with_script]. now rewrite Eb1. }
  unfold controlsDisabled, editShown. cbn [player with_isEditing with_script].
  rewrite Eb1. unfold onEdit; cbn. unfold exec. rewrite stopAudio_eq. cbn.
  repeat split.
Qed.

Lemma edit_mode_ends_on_first_change_witness :
  isEditing
    (scriptProp "b" (onEdit (mkPanel active_at_3 false "a" true false))) = false.
Proof.
  assert (audioBuffer (player (mkPanel active_at_3 false "a" true false)) <> None)
    as H1 by discriminate.
  assert ("b"%string <> script (mkPanel active_at_3 false "a" true false))
    as H2 by discriminate.
  apply (edit_mode_ends_on_first_change _ "b" H1 H2).
Defined.

(** X10.  Whatever the panel was doing, a new sample takes it out of edit
    mode, enables the transport buttons and leaves the session in its
    initial state; and when the sample is taken away while a script is
    shown and editing is allowed, the panel goes into edit mode with the
    buttons disabled, and stays there through every change of the script
    that leaves it non-empty. *)
Theorem sample_decides_edit_mode (w : Panel) (b : AudioBuffer) (new : string) :
  let w1 := sampleProp (Some b) w in
  let w0 := sampleProp None w in
  (isEditing w1 = false /\ controlsDisabled w1 = false /\
   initial_session (player w1) /\ audioBuffer (player w1) = Some b) /\
  (initial_session (player w0) /\ controlsDisabled w0 = true /\
   (truthy (script w) = true -> allowScriptEdit w = true ->
    isEditing w0 = true /\
    (truthy new = true -> isEditing (scriptProp new w0) = true))).
Proof.
  cbv zeta. unfold sampleProp, editModeEffect, controlsDisabled.
  cbn [player with_player with_audioBuffer audioBuffer with_isEditing].
  unfold exec. rewrite !resetAudio_eq. unfold exec. rewrite !stopAudio_eq. cbn.
  split.
  - repeat split.
  - split; [destruct (truthy (script w) && allowScriptEdit w); repeat split|].
    split; [now destruct (truthy (script w) && allowScriptEdit w)|].
    intros Ht Ha. rewrite Ht, Ha. cbn. split; [reflexivity|].
    intros Hn. unfold scriptProp; cbn.
    destruct (String.eqb new (script w)); [reflexivity|].
    unfold editModeEffect; cbn. now rewrite Hn, Ha.
Qed.
(** ** [App]: generating a broadcast *)

Lemma truthy_orElse (t fallback : string) :
  truthy fallback = true -> truthy (orElse t fallback) = true.
Proof. unfold orElse. intros H. now destruct (truthy t) eqn:E. Qed.


(** What [synthesizeAudio] does to a state, by the way the speech service
    ends. *)
Lemma synthesizeAudio_cases (sv : App.Services) (scr : string) (v : VoiceName)
      (s : App.State) :
  let s' := App.synthesizeAudio sv scr v s in
  App.isSynthesizing s' = false /\
  App.isProcessing s' = App.isProcessing s /\
  App.generatedScript s' = App.generatedScript s /\
  App.inputText s' = App.inputText s /\
  App.selectedVoice s' = App.selectedVoice s /\
  App.precisionMode s' = App.precisionMode s /\
  App.contextsCreated s' = S (App.contextsCreated s) /\
  match Gemini.generateSpeechFromScript (App.decode sv) (App.speak sv scr v) with
  | Resolved b =>
      App.audioBuffer s' = Some b /\ App.error s' = None /\
      App.contextsClosed s' = S (App.contextsClosed s)
  | Rejected m =>
      App.audioBuffer s' = App.audioBuffer s /\
      App.error s'
      = Some (String.append "Failed to generate audio. " (messageOf m)) /\
      App.contextsClosed s' = App.contextsClosed s
  end.
Proof.
  cbv zeta. unfold App.synthesizeAudio.
  destruct (Gemini.generateSpeechFromScript _ _); cbn; repeat split.
Qed.



Lemma isAudioFailure_audio (m : string) :
  isAudioFailure (Some (String.append "Failed to generate audio. " m)) = true.
Proof. cbn. now destruct m. Qed.

Lemma synthesizeAudio_step (sv : App.Services) (scr : string) (v : VoiceName)
      (s0 s : App.State) :
  App.contextsCreated s = App.contextsCreated s0 ->
  App.contextsClosed s = App.contextsClosed s0 ->
  (App.audioBuffer s = App.audioBuffer s0 \/ App.audioBuffer s = None) ->
  app_step s0 (App.synthesizeAudio sv scr v s).
Proof.
  intros Ec Ed Eb.
  destruct (synthesizeAudio_cases sv scr v s)
    as (_ & _ & _ & _ & _ & _ & A7 & A8).
  destruct (Gemini.generateSpeechFromScript _ _) as [b|m];
    destruct A8 as (B1 & B2 & B3).
  - right; left. rewrite A7, B1, B2, B3, Ec, Ed. repeat split; congruence.
  - right; right. rewrite A7, B1, B2, B3, Ec, Ed.
    repeat split; auto. apply isAudioFailure_audio.
Qed.

Lemma act_step (sv : App.Services) (a : App.Action) (s : App.State) :
  app_step s (App.act sv a s).
Proof.
  destruct a; cbn [App.act].
  - left; cbn; auto.
  - unfold App.handleGenerate.
    destruct (truthy (trim (App.inputText s))); [|left; auto].
    destruct (Gemini.generateNewsScript _) as [scr|m].
    + destruct (App.precisionMode s).
      * left; cbn; auto.
      * set (s1 := App.setGeneratedScript scr _).
        destruct (synthesizeAudio_step sv scr (App.selectedVoice s) s s1)
          as [H|[H|H]]; try reflexivity; [now right| | |].
        -- left. exact H.
        -- right; left. exact H.
        -- right; right. exact H.
    + left; cbn; auto.
  - unfold App.handleConfirmScript.
    destruct (truthy (App.generatedScript s)); [|left; auto].
    apply synthesizeAudio_step; auto.
  - left; cbn; auto.
  - unfold App.handleVoiceChange.
    destruct (App.audioBuffer s) eqn:Eb; [|left; cbn; auto].
    destruct (truthy (App.generatedScript s) && negb (App.isSynthesizing s));
      [|left; cbn; auto].
    apply synthesizeAudio_step; cbn; auto.
  - left; cbn; auto.
  - unfold App.handleGenerateExample.
    destruct (Gemini.generateExampleNews _); left; cbn; auto.
  - unfold App.handleParseFile.
    destruct (Gemini.extractTextFromFile _); left; cbn; auto.
Qed.

Lemma act_flags (sv : App.Services) (a : App.Action) (s : App.State) :
  App.isProcessing s = false -> App.isSynthesizing s = false ->
  App.isProcessing (App.act sv a s) = false /\
  App.isSynthesizing (App.act sv a s) = false.
Proof.
  intros Hp Hs. destruct a; cbn [App.act]; auto.
  - unfold App.handleGenerate.
    destruct (truthy (trim (App.inputText s))); [|auto].
    destruct (Gemini.generateNewsScript _) as [scr|m]; [|cbn; auto].
    destruct (App.precisionMode s); [cbn; auto|].
    set (s1 := App.setGeneratedScript scr _).
    destruct (synthesizeAudio_cases sv scr (App.selectedVoice s) s1)
      as (A1 & _). cbn. auto.
  - unfold App.handleConfirmScript.
    destruct (truthy (App.generatedScript s)); [|auto].
    destruct (synthesizeAudio_cases sv (App.generatedScript s)
                (App.selectedVoice s) s) as (A1 & A2 & _).
    split; congruence.
  - unfold App.handleVoiceChange.
    destruct (App.audioBuffer s); [|cbn; auto].
    destruct (truthy (App.generatedScript s) && negb (App.isSynthesizing s));
      [|cbn; auto].
    destruct (synthesizeAudio_cases sv (App.generatedScript s) v
                (App.setSelectedVoice v s)) as (A1 & A2 & _).
    split; [rewrite A2; exact Hp|exact A1].
  - unfold App.handleGenerateExample.
    destruct (Gemini.generateExampleNews _); cbn; auto.
  - unfold App.handleParseFile.
    destruct (Gemini.extractTextFromFile _); cbn; auto.
Qed.

Lemma act_inv (sv : App.Services) (a : App.Action) (s : App.State) :
  app_inv s -> app_inv (App.act sv a s).
Proof.
  intros (Hp & Hs & Hle & Hb & He).
  destruct (act_flags sv a s Hp Hs) as (Fp & Fs).
  split; [exact Fp|]. split; [exact Fs|].
  destruct (act_step sv a s) as [(C & D & B & E)|[(C & D & B & E)|(C & D & B & E)]];
    rewrite C, D.
  - split; [exact Hle|]. split.
    + intros Hn. apply Hb. destruct B as [B|B]; congruence.
    + intros Ha. apply He. destruct E as [E|E]; congruence.
  - split; [lia|]. split; [intros _; lia|]. rewrite E. discriminate.
  - split; [lia|]. split; [|intros _; lia].
    intros Hn. assert (App.audioBuffer s <> None) as X
      by (destruct B as [B|B]; congruence).
    apply Hb in X. lia.
Qed.

(** X12.  At the end of every action of a session of [App], started from
    its initial state and whatever the services answer: the two busy flags
    are false again; no more audio contexts were closed than created; a
    sample is present only if a context was closed, and an audio failure is
    shown only while a context is still open; and no action ever lowers the
    number of contexts left open, since a context whose synthesis failed is
    never closed. *)
Theorem app_session_invariant (sv : App.Services) (l : list App.Action)
        (a : App.Action) :
  let s := App.session sv l App.initial in
  App.isProcessing s = false /\ App.isSynthesizing s = false /\
  (App.contextsClosed s <= App.contextsCreated s)%nat /\
  (App.audioBuffer s <> None -> (1 <= App.contextsClosed s)%nat) /\
  (isAudioFailure (App.error s) = true -> (1 <= openContexts s)%nat) /\
  (openContexts s <= openContexts (App.act sv a s))%nat /\
  (isAudioFailure (App.error (App.act sv a s)) = true ->
   App.error (App.act sv a s) <> App.error s ->
   openContexts (App.act sv a s) = S (openContexts s)).
Proof.
  cbv zeta.
  assert (forall s, app_inv s -> app_inv (App.session sv l s)) as K.
  { induction l as [|x l IH]; intros s H; cbn; [exact H|].
    apply IH, act_inv, H. }
  assert (app_inv App.initial) as H0.
  { unfold app_inv; cbn. repeat split; auto; try discriminate.
    intros H; now elim H. }
  specialize (K _ H0). set (s := App.session sv l App.initial) in *.
  destruct K as (Hp & Hs & Hle & Hb & He).
  split; [exact Hp|]. split; [exact Hs|]. split; [exact Hle|].
  split; [exact Hb|]. unfold openContexts.
  split; [intros Ha; apply He in Ha; lia|].
  destruct (act_step sv a s) as [(C & D & B & E)|[(C & D & B & E)|(C & D & B & E)]];
    rewrite C, D.
  - split; [lia|]. intros Ha Hn. destruct E as [E|E]; congruence.
  - split; [lia|]. rewrite E. discriminate.
  - split; lia.
Qed.

(** ** Speech synthesis *)

(** X13.  [synthesizeAudio] opens one audio context and ends with
    [isSynthesizing] false.  It replaces the sample, clears the error and
    closes the context exactly when the answer of the speech service
    carries non-empty inline data in the first part of its first candidate
    and that data decodes; in every other case the sample shown before is
    kept, the context is left open and the error starts with the audio
    message, which for an answer without such data reads "No audio content
    returned from Gemini TTS.".  Later candidates and parts are never
    read. *)
Theorem synthesizeAudio_outcome (sv : App.Services) (scr : string)
        (v : VoiceName) (s : App.State) :
  let s' := App.synthesizeAudio sv scr v s in
  App.isSynthesizing s' = false /\
  App.contextsCreated s' = S (App.contextsCreated s) /\
  (App.error s' = None <->
   exists r c cs ct pt pts d dat b,
     App.speak sv scr v = Resolved r /\
     Gemini.candidates r = Some (c :: cs) /\ Gemini.content c = Some ct /\
     Gemini.parts ct = Some (pt :: pts) /\ Gemini.inlineData pt = Some d /\
     Gemini.data d = Some dat /\ dat <> ""%string /\
     App.decode sv dat = Resolved b /\ App.audioBuffer s' = Some b) /\
  (App.error s' = None ->
   App.contextsClosed s' = S (App.contextsClosed s)) /\
  (App.error s' <> None ->
   App.audioBuffer s' = App.audioBuffer s /\
   App.contextsClosed s' = App.contextsClosed s /\
   isAudioFailure (App.error s') = true) /\
  (forall r, App.speak sv scr v = Resolved r ->
             Gemini.base64Audio r = None \/ Gemini.base64Audio r = Some ""%string ->
             App.error s'
             = Some "Failed to generate audio. No audio content returned from Gemini TTS."%string).
Proof.
  cbv zeta.
  destruct (synthesizeAudio_cases sv scr v s)
    as (A1 & _ & _ & _ & _ & _ & A7 & A8).
  split; [exact A1|]. split; [exact A7|].
  unfold Gemini.generateSpeechFromScript in A8.
  destruct (App.speak sv scr v) as [r|m] eqn:Er.
  - destruct (Gemini.base64Audio r) as [dat|] eqn:Ed.
    + destruct (truthy dat) eqn:Et.
      * destruct (App.decode sv dat) as [b|m] eqn:Edc;
          destruct A8 as (B1 & B2 & B3); rewrite B1, B2, B3.
        -- split; [split; [intros _|reflexivity]|].
           ++ unfold Gemini.base64Audio, Gemini.first in Ed.
              destruct (Gemini.candidates r) as [[|c cs]|] eqn:E1;
                try discriminate.
              destruct (Gemini.content c) as [ct|] eqn:E2; try discriminate.
              destruct (Gemini.parts ct) as [[|pt pts]|] eqn:E3;
                try discriminate.
              destruct (Gemini.inlineData pt) as [d|] eqn:E4; try discriminate.
              exists r, c, cs, ct, pt, pts, d, dat, b.
              repeat split; auto.
              intros ->. discriminate.
           ++ split; [reflexivity|]. split; [congruence|].
              intros r' [= <-] [E|E]; rewrite Ed in E; [discriminate|].
              injection E as ->. discriminate.
        -- split; [split; [discriminate|]|].
           ++ intros (r' & c & cs & ct & pt & pts & d & dat' & b & E0 & E1 & E2
                      & E3 & E4 & E5 & _ & E7 & _).
              injection E0 as <-. unfold Gemini.base64Audio, Gemini.first in Ed.
              rewrite E1, E2, E3, E4, E5 in Ed. injection Ed as <-. congruence.
           ++ split; [discriminate|]. split.
              ** intros _. repeat split. apply isAudioFailure_audio.
              ** intros r' [= <-] [E|E]; rewrite Ed in E; [discriminate|].
                 injection E as ->. discriminate.
      * destruct A8 as (B1 & B2 & B3); rewrite B1, B2, B3.
        apply truthy_false in Et. subst dat.
        split; [split; [discriminate|]|].
        -- intros (r' & c & cs & ct & pt & pts & d & dat' & b & E0 & E1 & E2
                   & E3 & E4 & E5 & E6 & _).
           injection E0 as <-. unfold Gemini.base64Audio, Gemini.first in Ed.
           rewrite E1, E2, E3, E4, E5 in Ed. congruence.
        -- split; [discriminate|]. split; [intros _; repeat split|].
           intros r' _ _. reflexivity.
    + destruct A8 as (B1 & B2 & B3); rewrite B1, B2, B3.
      split; [split; [discriminate|]|].
      * intros (r' & c & cs & ct & pt & pts & d & dat' & b & E0 & E1 & E2
                & E3 & E4 & E5 & _).
        injection E0 as <-. unfold Gemini.base64Audio, Gemini.first in Ed.
        rewrite E1, E2, E3, E4, E5 in Ed. discriminate.
      * split; [discriminate|]. split; [intros _; repeat split|].
        intros r' _ _. reflexivity.
  - destruct A8 as (B1 & B2 & B3); rewrite B1, B2, B3.
    split; [split; [discriminate|]|].
    + intros (r' & c & cs & ct & pt & pts & d & dat' & b & E0 & _). discriminate.
    + split; [discriminate|]. split.
      * intros _. repeat split. apply isAudioFailure_audio.
      * intros r' E0. discriminate.
Qed.

(** ** [NewsInput] *)

(** X14.  [handleExampleSubmit] with the callbacks [App] passes does nothing
    for a blank topic.  Otherwise, whether the example request succeeds or
    fails, the topic box is closed, the topic is cleared and both busy
    flags are off, because [handleGenerateExample] catches its own error:
    on success the input text is the non-empty example, on failure the
    input is kept and the error shown is the example message. *)
Theorem example_box_always_closes (sv : App.Services) (a : App.State)
        (n : NewsInput.State) :
  let ui' := NewsInput.handleExampleSubmit (NewsInput.propsOf sv) (a, n) in
  (truthy (trim (NewsInput.exampleTopic n)) = false -> ui' = (a, n)) /\
  (truthy (trim (NewsInput.exampleTopic n)) = true ->
   NewsInput.showExampleInput (snd ui') = false /\
   NewsInput.exampleTopic (snd ui') = ""%string /\
   NewsInput.isGeneratingExample (snd ui') = false /\
   NewsInput.isUploading (snd ui') = NewsInput.isUploading n /\
   App.isProcessing (fst ui') = false /\
   match App.example sv (NewsInput.exampleTopic n) with
   | Resolved _ =>
       truthy (App.inputText (fst ui')) = true /\ App.error (fst ui') = None
   | Rejected m =>
       App.inputText (fst ui') = App.inputText a /\
       App.error (fst ui')
       = Some (String.append "Failed to generate example content. "
                 (messageOf m))
   end).
Proof.
  cbv zeta. unfold NewsInput.handleExampleSubmit.
  destruct (truthy (trim (NewsInput.exampleTopic n)));
    split; try discriminate; auto.
  intros _. cbn. unfold App.handleGenerateExample.
  unfold Gemini.generateExampleNews, Gemini.textOr.
  destruct (App.example sv (NewsInput.exampleTopic n)) as [r|m]; cbn.
  - repeat split. destruct (Gemini.text r); [|reflexivity].
    now apply truthy_orElse.
  - repeat split.
Qed.

Lemma example_box_always_closes_witness :
  NewsInput.showExampleInput
    (snd (NewsInput.handleExampleSubmit (NewsInput.propsOf (textOnly "feed"))
            (App.initial, NewsInput.mkState true "AI" false false ""))) = false.
Proof.
  destruct (example_box_always_closes (textOnly "feed") App.initial
              (NewsInput.mkState true "AI" false false "")) as (_ & H).
  destruct (H eq_refl) as (A & _). exact A.
Defined.

Lemma synthesizeAudio_outcome_witness :
  App.contextsClosed
    (App.synthesizeAudio (withAudio "UklGRg==" ten) "script"
       Kore App.initial) = 1%nat.
Proof.
  destruct (synthesizeAudio_outcome (withAudio "UklGRg==" ten)
              "script" Kore App.initial) as (_ & _ & _ & H & _).
  apply H. reflexivity.
Defined.

(** ** File upload *)

Lemma split_lacks (sep : ascii) (s : string) :
  lacks sep s = true -> split sep s = [s].
Proof.
  induction s as [|c r IH]; cbn; [reflexivity|].
  intros H. apply andb_true_iff in H as [Hc Hr].
  apply negb_true_iff in Hc. rewrite Hc, (IH Hr). reflexivity.
Qed.

Lemma split_app (sep : ascii) (h p : string) :
  lacks sep h = true ->
  split sep (String.append h (String sep p)) = h :: split sep p.
Proof.
  induction h as [|c r IH]; cbn.
  - intros _. now rewrite Ascii.eqb_refl.
  - intros H. apply andb_true_iff in H as [Hc Hr].
    apply negb_true_iff in Hc. rewrite Hc, (IH Hr). reflexivity.
Qed.

Lemma orElse_empty (t : string) : orElse t "" = t.
Proof.
  unfold orElse. destruct (truthy t) eqn:E; [reflexivity|].
  symmetry. now apply truthy_false.
Qed.

Lemma substring_all (s : string) : String.substring 0 (String.length s) s = s.
Proof.
  induction s as [|c r IH]; cbn; [reflexivity|]. now rewrite IH.
Qed.

Lemma endsWith_app (s suffix : string) :
  endsWith (String.append s suffix) suffix = true.
Proof.
  unfold endsWith.
  assert (String.length (String.append s suffix)
          = (String.length s + String.length suffix)%nat) as ->.
  { induction s as [|c r IH]; cbn; [reflexivity|]. now rewrite IH. }
  replace (String.length s + String.length suffix - String.length suffix)%nat
    with (String.length s) by lia.
  apply andb_true_iff. split; [apply Nat.leb_le; lia|].
  apply String.eqb_eq.
  induction s as [|c r IH]; cbn; [apply substring_all|exact IH].
Qed.

(** X15.  A file that is not read as text is handed to a [FileReader], and
    [handleFileChange] then returns through its [finally] block: the
    upload flag is already off and the file input cleared while the parent
    has not been asked anything yet.  When the reader delivers the data URL
    "header,payload", [App] asks the extraction service for the payload
    under the file's type, or "application/pdf" if the type is empty; the
    answer's text replaces the input (an answer without text empties it,
    with no error shown), and a failure keeps the input and shows the
    extraction message.  Both busy flags are off in the end. *)
Theorem binary_upload_flow (sv : App.Services) (f : NewsInput.File)
        (header payload : string) (a : App.State) (n : NewsInput.State) :
  NewsInput.readAsText f = false ->
  NewsInput.dataURL f = Some (String.append header (String "," payload)) ->
  lacks "," header = true -> lacks "," payload = true ->
  let r1 := NewsInput.handleFileChange (NewsInput.propsOf sv) (Some f) (a, n) in
  let r2 := NewsInput.readerLoaded (NewsInput.propsOf sv) f (fst r1) in
  snd r1 = Some f /\ fst (fst r1) = a /\
  NewsInput.isUploading (snd (fst r1)) = false /\
  NewsInput.fileInputValue (snd (fst r1)) = ""%string /\
  NewsInput.isUploading (snd r2) = false /\
  App.isProcessing (fst r2) = false /\
  match App.extract sv (orElse (NewsInput.type f) "application/pdf")
          (Some payload) with
  | Resolved r =>
      App.inputText (fst r2)
      = match Gemini.text r with Some t => t | None => ""%string end /\
      App.error (fst r2) = None
  | Rejected m =>
      App.inputText (fst r2) = App.inputText a /\
      App.error (fst r2)
      = Some (String.append "Failed to extract text from file. " (messageOf m))
  end.
Proof.
  intros Ht Hu Hh Hp. cbv zeta.
  unfold NewsInput.handleFileChange. rewrite Ht. cbn [fst snd].
  unfold NewsInput.readerLoaded. rewrite Hu.
  rewrite (split_app _ _ _ Hh), (split_lacks _ _ Hp).
  cbn [nth_error NewsInput.onParseFile NewsInput.propsOf fst snd].
  unfold App.handleParseFile, Gemini.extractTextFromFile, Gemini.textOr.
  split; [reflexivity|]. split; [reflexivity|].
  split; [reflexivity|]. split; [reflexivity|].
  split; [reflexivity|].
  destruct (App.extract sv (orElse (NewsInput.type f) "application/pdf")
              (Some payload)) as [r|m]; cbn.
  - split; [reflexivity|]. split; [|reflexivity].
    destruct (Gemini.text r); [apply orElse_empty|reflexivity].
  - repeat split.
Qed.

Lemma binary_upload_flow_witness :
  App.inputText
    (fst (NewsInput.readerLoaded (NewsInput.propsOf (textOnly "page one"))
            {| NewsInput.type := ""; NewsInput.name := "scan.pdf";
               NewsInput.contents := Rejected None;
               NewsInput.dataURL := Some "data:;base64,JVBERg=="%string |}
            (fst (NewsInput.handleFileChange
                    (NewsInput.propsOf (textOnly "page one"))
                    (Some {| NewsInput.type := ""; NewsInput.name := "scan.pdf";
                             NewsInput.contents := Rejected None;
                             NewsInput.dataURL := Some "data:;base64,JVBERg=="%string |})
                    (App.initial, NewsInput.mkState false "" false false "scan.pdf")))))
  = "page one"%string.
Proof.
  set (f := {| NewsInput.type := ""; NewsInput.name := "scan.pdf";
               NewsInput.contents := Rejected None;
               NewsInput.dataURL := Some "data:;base64,JVBERg=="%string |}).
  assert (NewsInput.readAsText f = false) as H1 by reflexivity.
  assert (NewsInput.dataURL f
          = Some (String.append "data:;base64" (String ","%char "JVBERg==")))
    as H2 by reflexivity.
  assert (lacks "," "data:;base64" = true) as H3 by reflexivity.
  assert (lacks "," "JVBERg==" = true) as H4 by reflexivity.
  destruct (binary_upload_flow (textOnly "page one") f _ _ App.initial
              (NewsInput.mkState false "" false false "scan.pdf") H1 H2 H3 H4)
    as (_ & _ & _ & _ & _ & _ & H).
  cbn in H. exact (proj1 H).
Defined.

(** X16.  A file whose type is one of the five text types, or whose name
    ends in ".txt" or ".md" whatever its type, is read in the browser: no
    reader is started and the parent's handlers other than [onChange] are
    not involved.  When the read succeeds the input becomes the file's
    text and nothing else of the parent changes; when it fails the parent
    is left as it was, so no error is shown.  Either way the upload flag is
    off and the file input cleared, and the rest of the component's state
    is kept. *)
Theorem text_file_read_locally (sv : App.Services) (f : NewsInput.File)
        (stem : string) (a : App.State) (n : NewsInput.State) :
  In (NewsInput.type f) NewsInput.textTypes \/
  NewsInput.name f = String.append stem ".txt" \/
  NewsInput.name f = String.append stem ".md" ->
  let r := NewsInput.handleFileChange (NewsInput.propsOf sv) (Some f) (a, n) in
  snd r = None /\
  snd (fst r)
  = NewsInput.setFileInputValue "" (NewsInput.setIsUploading false n) /\
  match NewsInput.contents f with
  | Resolved t => fst (fst r) = App.setInputText t a
  | Rejected _ => fst (fst r) = a
  end.
Proof.
  intros H. cbv zeta.
  assert (NewsInput.readAsText f = true) as Ht.
  { unfold NewsInput.readAsText. destruct H as [H|[H|H]].
    - apply orb_true_iff; left. apply orb_true_iff; left.
      unfold includes. apply existsb_exists.
      exists (NewsInput.type f). split; [exact H|apply String.eqb_refl].
    - apply orb_true_iff; left. apply orb_true_iff; right.
      rewrite H. apply endsWith_app.
    - apply orb_true_iff; right. rewrite H. apply endsWith_app. }
  unfold NewsInput.handleFileChange. rewrite Ht.
  destruct (NewsInput.contents f); cbn; repeat split.
Qed.

Lemma text_file_read_locally_witness :
  fst (fst (NewsInput.handleFileChange (NewsInput.propsOf (textOnly "unused"))
              (Some {| NewsInput.type := "application/octet-stream";
                       NewsInput.name := "notes.md";
                       NewsInput.contents := Resolved "Headline"%string;
                       NewsInput.dataURL := None |})
              (App.initial, NewsInput.mkState false "" false false "notes.md")))
  = App.setInputText "Headline" App.initial.
Proof.
  set (f := {| NewsInput.type := "application/octet-stream";
               NewsInput.name := "notes.md";
               NewsInput.contents := Resolved "Headline"%string;
               NewsInput.dataURL := None |}).
  assert (In (NewsInput.type f) NewsInput.textTypes \/
          NewsInput.name f = String.append "notes" ".txt" \/
          NewsInput.name f = String.append "notes" ".md") as H
    by (right; right; reflexivity).
  destruct (text_file_read_locally (textOnly "unused") f "notes" App.initial
              (NewsInput.mkState false "" false false "notes.md") H)
    as (_ & _ & H3).
  exact H3.
Defined.
